(** * auth_batch.py: the response/admin sheet merge, shallow embedding

    Python [str] values are modelled as lists of Unicode code points
    ([pystr]).  Literals are written in UTF-8 and decoded with [u]. *)

From Stdlib Require Import List Arith NArith Bool Ascii String Lia.
Import ListNotations.

Open Scope list_scope.

(** ** Python strings *)

Definition pystr := list N.

(** UTF-8 decoding of Rocq string literals (only used to write the
    program's literals as code points). *)
Fixpoint utf8 (s : string) : pystr :=
  match s with
  | EmptyString => []
  | String a s1 =>
      let b := N_of_ascii a in
      if (b <? 128)%N then b :: utf8 s1
      else if (b <? 224)%N then
        match s1 with
        | String a2 s2 => ((b - 192) * 64 + (N_of_ascii a2 - 128))%N :: utf8 s2
        | EmptyString => []
        end
      else if (b <? 240)%N then
        match s1 with
        | String a2 (String a3 s3) =>
            ((b - 224) * 4096 + (N_of_ascii a2 - 128) * 64
             + (N_of_ascii a3 - 128))%N :: utf8 s3
        | _ => []
        end
      else
        match s1 with
        | String a2 (String a3 (String a4 s4)) =>
            ((b - 240) * 262144 + (N_of_ascii a2 - 128) * 4096
             + (N_of_ascii a3 - 128) * 64 + (N_of_ascii a4 - 128))%N :: utf8 s4
        | _ => []
        end
  end.

Definition u (s : string) : pystr := utf8 s.
Arguments u s%_string_scope.

Definition streqb (a b : pystr) : bool :=
  if list_eq_dec N.eq_dec a b then true else false.

(** [x in l] for a list of strings *)
Definition mem (x : pystr) (l : list pystr) : bool := existsb (streqb x) l.

(** [str.isspace] on one code point (the characters Python's [str.strip]
    removes). *)
Definition isspace (c : N) : bool :=
  ((9 <=? c) && (c <=? 13))%N || ((28 <=? c) && (c <=? 32))%N
  || (c =? 133)%N || (c =? 160)%N || (c =? 5760)%N
  || ((8192 <=? c) && (c <=? 8202))%N
  || (c =? 8232)%N || (c =? 8233)%N || (c =? 8239)%N || (c =? 8287)%N
  || (c =? 12288)%N.

Fixpoint lstrip (s : pystr) : pystr :=
  match s with
  | [] => []
  | c :: s1 => if isspace c then lstrip s1 else s
  end.

Definition rstrip (s : pystr) : pystr := rev (lstrip (rev s)).

(** [s.strip()] *)
Definition strip (s : pystr) : pystr := rstrip (lstrip s).

(** [s.lower()] on ASCII letters.  No non-ASCII character lowercases
    into a character of the representative tokens, so the membership
    test below is the Python one. *)
Definition lower_char (c : N) : N :=
  if ((65 <=? c) && (c <=? 90))%N then (c + 32)%N else c.
Definition lower (s : pystr) : pystr := map lower_char s.

Definition nl : N := 10%N.

(** [s.split('\n')] *)
Fixpoint split_nl (s : pystr) : list pystr :=
  match s with
  | [] => [[]]
  | c :: s1 =>
      let parts := split_nl s1 in
      if (c =? nl)%N then [] :: parts
      else match parts with
           | p :: ps => (c :: p) :: ps
           | [] => [[c]]
           end
  end.

(** ['\n'.join(l)] *)
Fixpoint join_nl (l : list pystr) : pystr :=
  match l with
  | [] => []
  | [x] => x
  | x :: l1 => x ++ nl :: join_nl l1
  end.

(** [str(n)] for a natural number *)
Fixpoint digits_rev (fuel n : nat) : pystr :=
  match fuel with
  | O => []
  | S f =>
      let d := N.of_nat (Nat.modulo n 10) in
      if Nat.ltb n 10 then [(48 + d)%N]
      else (48 + d)%N :: digits_rev f (Nat.div n 10)
  end.
Definition str_of_nat (n : nat) : pystr := rev (digits_rev (S n) n).

(** [needle in hay] *)
Fixpoint prefixb (p s : pystr) : bool :=
  match p, s with
  | [], _ => true
  | _, [] => false
  | a :: p1, b :: s1 => (a =? b)%N && prefixb p1 s1
  end.
Fixpoint contains (needle hay : pystr) : bool :=
  match hay with
  | [] => prefixb needle []
  | _ :: hay1 => prefixb needle hay || contains needle hay1
  end.

Definition nonempty (s : pystr) : bool :=
  match s with [] => false | _ => true end.

(** ** Records and DataFrames *)

(** A record as [get_all_records] / [to_dict('records')] produce it: an
    ordered mapping from column name to cell value.  Cells are the
    [str(...)] of the cell; gspread pads every record to the header, so
    a missing key never arises from the source (looking one up yields
    the [dict.get(..., '')] default). *)
Definition record := list (pystr * pystr).

Fixpoint lookup (r : record) (c : pystr) : pystr :=
  match r with
  | [] => []
  | (k, v) :: r1 => if streqb k c then v else lookup r1 c
  end.

Definition has_key (r : record) (c : pystr) : bool :=
  existsb (fun kv => streqb (fst kv) c) r.

(** [df.at[i, c] = v] on row [i] *)
Definition rec_set (r : record) (c v : pystr) : record :=
  map (fun kv => if streqb (fst kv) c then (fst kv, v) else kv) r.

(** [df[c] = series] seen on one row: replace the column or append it *)
Definition rec_assign (r : record) (c v : pystr) : record :=
  if has_key r c then rec_set r c v else r ++ [(c, v)].

(** [df.drop(columns=[c])] seen on one row *)
Definition rec_drop (r : record) (c : pystr) : record :=
  filter (fun kv => negb (streqb (fst kv) c)) r.

(** A pandas DataFrame: its column labels and its rows. *)
Record frame := mkFrame { cols : list pystr; rows : list record }.

(** Every row carries exactly the frame's columns, in order. *)
Definition frame_wf (f : frame) : Prop :=
  Forall (fun r => map fst r = cols f) (rows f).

(** [df.empty]: no rows or no columns *)
Definition frame_empty (f : frame) : bool :=
  match rows f, cols f with
  | [], _ => true
  | _, [] => true
  | _, _ => false
  end.

Inductive exn :=
| KeyError (col : pystr)
| RuntimeError (msg : pystr)
| GatewayError (what : pystr).

Inductive except (A : Type) :=
| Ok (a : A)
| Err (e : exn).
Arguments Ok {A}.
Arguments Err {A}.

(** ** Column names and the fixed tables *)

Definition col_dong : pystr := u "동".
Definition col_hosu : pystr := u "호수".
Definition col_KEY : pystr := u "KEY".
Definition col_uuid : pystr := u "uuid".
Definition col_rep_name : pystr := u "대표자 이름".
Definition col_rep_flag : pystr := u "세대 대표자 여부".
Definition col_name : pystr := u "이름".

(** [_get_protected_columns] *)
Definition protected_columns : list pystr :=
  [u "검토자1"; u "검토자2"; u "동"; u "호수"; u "타입"; u "비고";
   u "카카오톡 닉네임+uuid"].

(** [_get_column_mappings], in dict insertion order *)
Definition column_mappings : list (pystr * pystr) :=
  [(u "위임장 업로드", u "위임장 업로드");
   (u "계약서 업로드", u "계약서 업로드");
   (u "이름", u "이름");
   (u "비상연락망", u "비상연락망");
   (u "네이버카페 ID", u "네이버카페 ID");
   (u "자격구분", u "자격구분");
   (u "세대 대표자 여부", u "세대 대표자 여부");
   (u "개인정보 수집·이용 동의", u "개인정보 수집·이용 동의")].

(** ** The merge helpers *)

(** Python's dedup loop with a [seen] set *)
Fixpoint dedup_loop (seen : list pystr) (l : list pystr) : list pystr :=
  match l with
  | [] => []
  | v :: l1 =>
      if mem v seen then dedup_loop seen l1
      else v :: dedup_loop (v :: seen) l1
  end.

(** [_merge_multiline_data] *)
Definition merge_multiline_data (existing_value : pystr) (new_values : list pystr)
  : pystr :=
  let existing_lines :=
    if nonempty existing_value && nonempty (strip existing_value)
    then filter nonempty (map strip (split_nl existing_value))
    else [] in
  let added := filter nonempty (map strip new_values) in
  join_nl (dedup_loop [] (existing_lines ++ added)).

Definition truthy_tokens : list pystr :=
  [u "예"; u "yes"; u "y"; u "o"; u "대표"; u "true"; u "1"].

Definition is_representative (flag : pystr) : bool :=
  mem (lower (strip flag)) truthy_tokens.

Fixpoint representatives_loop (rs : list record) : list pystr :=
  match rs with
  | [] => []
  | r :: rs1 =>
      if is_representative (lookup r col_rep_flag) then
        let name := strip (lookup r col_name) in
        if nonempty name then name :: representatives_loop rs1
        else representatives_loop rs1
      else representatives_loop rs1
  end.

(** [_extract_representatives] *)
Definition extract_representatives (responses_for_key : list record) : pystr :=
  match representatives_loop responses_for_key with
  | [] => []
  | reps => join_nl reps
  end.

(** A group of [groupby('KEY')]: the rows with their index labels *)
Definition group := list (nat * record).

(** [_generate_uuid_from_df]: index label + 2 for each row *)
Definition generate_uuid_from_df (g : group) : pystr :=
  match g with
  | [] => []
  | _ => join_nl (map (fun p => str_of_nat (fst p + 2)) g)
  end.

(** [_create_key]: [strip(동) + "-" + strip(호수)] *)
Definition unit_key (r : record) : pystr :=
  strip (lookup r col_dong) ++ u "-" ++ strip (lookup r col_hosu).

Definition create_key (f : frame) : except frame :=
  if mem col_dong (cols f) then
    if mem col_hosu (cols f) then
      Ok (mkFrame (if mem col_KEY (cols f) then cols f else cols f ++ [col_KEY])
                  (map (fun r => rec_assign r col_KEY (unit_key r)) (rows f)))
    else Err (KeyError col_hosu)
  else Err (KeyError col_dong).

(** [response_grouped.get_group(key)]; empty when [key] is not a group *)
Definition group_of (rf : frame) (key : pystr) : group :=
  filter (fun p => streqb (lookup (snd p) col_KEY) key)
         (combine (seq 0 (List.length (rows rf))) (rows rf)).

(** [new_values] for one mapping entry *)
Definition new_values_for (g : group) (response_col : pystr) : list pystr :=
  filter nonempty (map (fun p => strip (lookup (snd p) response_col)) g).

(** The body of the [for i, admin_row in admin_df.iterrows()] loop on row [i] *)
Definition merge_row (mapping : list (pystr * pystr)) (rf : frame)
  (admin_cols : list pystr) (admin_row : record) : record :=
  let key := lookup admin_row col_KEY in
  match group_of rf key with
  | [] => admin_row
  | g =>
      let r1 := if mem col_uuid admin_cols
                then rec_set admin_row col_uuid (generate_uuid_from_df g)
                else admin_row in
      let r2 := if mem col_rep_name admin_cols
                then rec_set r1 col_rep_name (extract_representatives (map snd g))
                else r1 in
      fold_left
        (fun r m =>
           let '(response_col, admin_col) := m in
           if mem admin_col protected_columns then r
           else if mem response_col (cols rf) && mem admin_col admin_cols then
             match new_values_for g response_col with
             | [] => r
             | nv => rec_set r admin_col (merge_multiline_data (lookup r admin_col) nv)
             end
           else r)
        mapping r2
  end.

(** Lines 231-278 of [merge_into_admin_sheet]: the merged [admin_df] *)
Definition merge_frames (mapping : list (pystr * pystr)) (response_df admin_df : frame)
  : except frame :=
  match create_key response_df with
  | Err e => Err e
  | Ok rf =>
      match create_key admin_df with
      | Err e => Err e
      | Ok af => Ok (mkFrame (cols af) (map (merge_row mapping rf (cols af)) (rows af)))
      end
  end.

(** [admin_df.drop(columns=['KEY'])] *)
Definition update_df (af : frame) : frame :=
  mkFrame (filter (fun c => negb (streqb c col_KEY)) (cols af))
          (map (fun r => rec_drop r col_KEY) (rows af)).

(** [update_values]: one list of cells per row, in column order *)
Definition update_values (f : frame) : list (list pystr) :=
  map (fun r => map (lookup r) (cols f)) (rows f).

(** ** The sheet writer's header search *)

(** The test of line 386.  ['호수' in str(all_data[i])]: the repr of a list
    of strings only adds ASCII quotes, separators and escapes around the
    cells and prints Hangul unescaped, so it contains ['호수'] exactly when
    one of the cells does. *)
Definition header_row_test (row : list pystr) : bool :=
  existsb (fun cell => contains col_dong cell && existsb (contains col_hosu) row) row.

Fixpoint find_header_from (i : nat) (all_data : list (list pystr)) : option nat :=
  match all_data with
  | [] => None
  | row :: rest => if header_row_test row then Some (i + 1) else find_header_from (S i) rest
  end.

(** [header_row_idx] (1-based), with the fallback to row 3 *)
Definition find_header_row (all_data : list (list pystr)) : nat :=
  match find_header_from 0 all_data with
  | Some h => h
  | None => 3
  end.

(** The range [A<start_row>:<end_col><end_row>]; [end_col] is the code
    point [chr(ord('A') + ncols - 1)]. *)
Record range := mkRange { start_row : nat; end_col : N; end_row : nat }.

Definition update_range (header_row_idx ncols nrows : nat) : range :=
  let start := header_row_idx + 1 in
  mkRange start (65 + N.of_nat ncols - 1)%N (start + nrows - 1).

(** ** The gateway and the run *)

(** What [spreadsheet.get_worksheet_by_id] does at one attempt *)
Inductive probe := Found | Falsy | Raises.

(** The remote gateway, as the answers it gives. *)
Record gateway := mkGateway {
  gw_open : pystr -> bool;              (* open_by_key succeeds *)
  gw_records : pystr -> option frame;   (* worksheet(name).get_all_records() *)
  gw_timestamp : pystr;                 (* datetime.now().strftime(...) *)
  gw_copy_to : option nat;              (* copy_to(...)["sheetId"] *)
  gw_get_by_id : nat -> probe;          (* answer at attempt k *)
  gw_update_title_ok : bool;
  gw_all_values : list (list pystr);    (* get_all_values() *)
  gw_update_ok : bool }.

(** The calls made to the gateway, in order *)
Inductive call :=
| COpenByKey (id : pystr)
| CReadRecords (sheet : pystr)
| CCopyTo (id : pystr)
| CGetWorksheetById (sheet_id attempt : nat)
| CSleep (secs : nat)
| CUpdateTitle (title : pystr)
| CGetAllValues
| CUpdate (rng : range) (values : list (list pystr)).

(** State (trace of calls) and exceptions *)
Definition M (A : Type) := list call -> except A * list call.

Definition ret {A} (a : A) : M A := fun t => (Ok a, t).
Definition raise {A} (e : exn) : M A := fun t => (Err e, t).
Definition bind {A B} (m : M A) (k : A -> M B) : M B :=
  fun t => match m t with
           | (Ok a, t1) => k a t1
           | (Err e, t1) => (Err e, t1)
           end.
Definition emit (c : call) : M unit := fun t => (Ok tt, t ++ [c]).

Notation "x <- m ;; k" := (bind m (fun x => k))
  (at level 61, m at next level, right associativity).
Notation "m ;;; k" := (bind m (fun _ => k))
  (at level 61, right associativity).

Definition response_sheet_id : pystr := u "1v-QMP93fTGfWuoIM1pGZMKbfcXvUrtjl9reA8JDSJqk".
Definition admin_sheet_id : pystr := u "1Kq_A2WLDtfboUP6pu9xI3TsNrOpxfCvLcoyFIi8QOxg".
Definition response_sheet_name : pystr := u "설문지 응답 시트1".
Definition admin_sheet_name : pystr := u "의왕청계2 A1BL 입주(계약)자 확인 및 관리시트(관리자)".

(** The message of the [RuntimeError] raised by the retry helper *)
Definition not_found_msg : pystr := u "복사된 시트를 찾을 수 없습니다".

Section Run.
Variable gw : gateway.

Definition open_by_key (id : pystr) : M unit :=
  emit (COpenByKey id) ;;;
  if gw_open gw id then ret tt else raise (GatewayError id).

Definition read_records (name : pystr) : M frame :=
  emit (CReadRecords name) ;;;
  match gw_records gw name with
  | Some f => ret f
  | None => raise (GatewayError name)
  end.

(** [_read_sheets] *)
Definition read_sheets : M (frame * frame) :=
  open_by_key response_sheet_id ;;;
  response_data <- read_records response_sheet_name ;;
  open_by_key admin_sheet_id ;;;
  admin_data <- read_records admin_sheet_name ;;
  ret (response_data, admin_data).

(** The [for attempt in range(retries)] loop *)
Fixpoint retry_loop (sheet_id retries delay attempt fuel : nat) : M unit :=
  match fuel with
  | O => raise (RuntimeError not_found_msg)
  | S f =>
      emit (CGetWorksheetById sheet_id attempt) ;;;
      match gw_get_by_id gw attempt with
      | Found => ret tt
      | Falsy => retry_loop sheet_id retries delay (S attempt) f
      | Raises =>
          (if Nat.ltb attempt (retries - 1) then emit (CSleep delay) else ret tt) ;;;
          retry_loop sheet_id retries delay (S attempt) f
      end
  end.

(** [get_worksheet_by_id_with_retry] *)
Definition get_worksheet_by_id_with_retry (sheet_id retries delay : nat) : M unit :=
  retry_loop sheet_id retries delay 0 retries.

(** [backup_admin_sheet] *)
Definition backup_admin_sheet : M unit :=
  let backup_name := u "Admin_Backup_" ++ gw_timestamp gw in
  emit (CCopyTo admin_sheet_id) ;;;
  match gw_copy_to gw with
  | None => raise (GatewayError (u "copy_to"))
  | Some sheet_id =>
      open_by_key admin_sheet_id ;;;
      get_worksheet_by_id_with_retry sheet_id 5 1 ;;;
      emit (CUpdateTitle backup_name) ;;;
      if gw_update_title_ok gw then ret tt else raise (GatewayError (u "update_title"))
  end.

(** [_update_admin_sheet] *)
Definition update_admin_sheet (af : frame) : M unit :=
  let uf := update_df af in
  match update_values uf with
  | [] => ret tt
  | vals =>
      emit CGetAllValues ;;;
      let header_row_idx := find_header_row (gw_all_values gw) in
      let rng := update_range header_row_idx (List.length (cols uf)) (List.length vals) in
      emit (CUpdate rng vals) ;;;
      if gw_update_ok gw then ret tt else raise (GatewayError (u "update"))
  end.

(** [merge_into_admin_sheet] *)
Definition merge_into_admin_sheet (response_df admin_df : frame) : M unit :=
  if frame_empty response_df then ret tt
  else match merge_frames column_mappings response_df admin_df with
       | Err e => raise e
       | Ok af => update_admin_sheet af
       end.

(** [process_sheets] *)
Definition process_sheets : M unit :=
  open_by_key response_sheet_id ;;;
  data <- read_sheets ;;
  backup_admin_sheet ;;;
  merge_into_admin_sheet (fst data) (snd data).

End Run.

(** ** [_apply_one_time_formatting] *)

(** Its calls: [admin_ws.format] on the one-row range
    [A<row>:<end_col><row>], and [time.sleep] (in milliseconds). *)
Inductive fmt_call :=
| FFormat (row : nat) (end_col : N)
| FSleepMs (ms : nat).

(** What one [admin_ws.format] call does: return, or raise with a message. *)
Inductive fmt_result := FmtOk | FmtErr (msg : pystr).

(** ["quota" in str(e).lower() or "limit" in str(e).lower()]; no
    non-ASCII character lowercases into a run of these ASCII letters, so
    ASCII lowering gives the Python test. *)
Definition quota_error (msg : pystr) : bool :=
  contains (u "quota") (lower msg) || contains (u "limit") (lower msg).

(** The [for row_idx in range(...)] loop.  [fmt n] is the outcome of the
    [n]-th [format] call; [formatted] is [formatted_rows]. *)
Fixpoint format_loop (fmt : nat -> fmt_result) (start_row num_cols : nat)
  (idxs : list nat) (n formatted : nat) (tr : list fmt_call) : nat * list fmt_call :=
  match idxs with
  | [] => (formatted, tr)
  | row_idx :: rest =>
      let actual_row := start_row + row_idx in
      if Nat.odd actual_row then
        let end_col_letter := (65 + N.of_nat num_cols - 1)%N in
        match fmt n with
        | FmtOk =>
            format_loop fmt start_row num_cols rest (S n) (S formatted)
                        (tr ++ [FFormat actual_row end_col_letter; FSleepMs 100])
        | FmtErr msg =>
            if quota_error msg then
              let tr1 := tr ++ [FFormat actual_row end_col_letter; FSleepMs 2000;
                                FFormat actual_row end_col_letter] in
              match fmt (S n) with
              | FmtOk => format_loop fmt start_row num_cols rest (S (S n)) (S formatted) tr1
              | FmtErr _ => (formatted, tr1)
              end
            else format_loop fmt start_row num_cols rest (S n) formatted
                             (tr ++ [FFormat actual_row end_col_letter])
        end
      else format_loop fmt start_row num_cols rest n formatted tr
  end.

(** [_apply_one_time_formatting]: the count it logs at the end and its
    calls.  No exception escapes it (the outer [except] swallows them and
    nothing else in the body raises). *)
Definition apply_one_time_formatting (fmt : nat -> fmt_result)
  (start_row num_rows num_cols : nat) : nat * list fmt_call :=
  let start_from_idx := 330 - start_row in
  format_loop fmt start_row num_cols (seq start_from_idx (num_rows - start_from_idx)) 0 0 [].

(** [[line.strip() for line in str(v).split('\n') if line.strip()]] *)
Definition existing_lines (v : pystr) : list pystr :=
  filter nonempty (map strip (split_nl v)).

(** [int(s)] on a string of ASCII digits *)
Definition dec_value (s : pystr) : nat :=
  fold_left (fun acc d => acc * 10 + N.to_nat (d - 48)) s 0.

(** The calls one attempt of [get_worksheet_by_id_with_retry] makes when
    it does not return: the lookup, then the sleep if it raised and was
    not the last attempt. *)
Definition attempt_trace (gw : gateway) (sheet_id retries delay attempt : nat) : list call :=
  CGetWorksheetById sheet_id attempt ::
  match gw_get_by_id gw attempt with
  | Raises => if Nat.ltb attempt (retries - 1) then [CSleep delay] else []
  | _ => []
  end.

Definition is_update_call (c : call) : bool :=
  match c with CUpdate _ _ => true | _ => false end.

Definition is_ascii_digit (d : N) : bool := ((48 <=? d) && (d <=? 57))%N.

(** * Proofs *)

(** ** Equality and membership *)

Lemma streqb_true (a b : pystr) : streqb a b = true <-> a = b.
Proof. unfold streqb; destruct (list_eq_dec N.eq_dec a b); split; congruence. Qed.

Lemma streqb_refl (a : pystr) : streqb a a = true.
Proof. apply streqb_true; reflexivity. Qed.

Lemma streqb_false (a b : pystr) : streqb a b = false <-> a <> b.
Proof.
  unfold streqb; destruct (list_eq_dec N.eq_dec a b); split; congruence.
Qed.

Lemma mem_In (x : pystr) (l : list pystr) : mem x l = true <-> In x l.
Proof.
  unfold mem; rewrite existsb_exists; split.
  - intros [y [Hy Hxy]]; apply streqb_true in Hxy; subst; assumption.
  - intros H; exists x; split; [assumption | apply streqb_refl].
Qed.

Lemma mem_notIn (x : pystr) (l : list pystr) : mem x l = false <-> ~ In x l.
Proof.
  rewrite <- mem_In; destruct (mem x l); split; congruence.
Qed.

Ltac streq_simpl :=
  repeat match goal with
  | H : streqb _ _ = true |- _ => apply streqb_true in H; subst
  | |- context [streqb ?a ?a] => rewrite streqb_refl
  end.

(** ** Stripping *)

Lemma lstrip_app (l m : pystr) :
  lstrip (l ++ m) = if forallb isspace l then lstrip m else lstrip l ++ m.
Proof.
  induction l as [|c l IH]; simpl; [reflexivity|].
  destruct (isspace c); simpl; [exact IH | reflexivity].
Qed.

Lemma lstrip_nil_iff (s : pystr) : lstrip s = [] <-> forallb isspace s = true.
Proof.
  induction s as [|c s IH]; simpl; [tauto|].
  destruct (isspace c); simpl; [exact IH | split; discriminate].
Qed.

Lemma lstrip_head (s : pystr) :
  match lstrip s with [] => True | c :: _ => isspace c = false end.
Proof.
  induction s as [|c s IH]; simpl; [exact I|].
  destruct (isspace c) eqn:E; [exact IH | exact E].
Qed.

Lemma lstrip_idem (s : pystr) : lstrip (lstrip s) = lstrip s.
Proof.
  pose proof (lstrip_head s) as H.
  destruct (lstrip s) as [|c t]; simpl; [reflexivity|].
  rewrite H; reflexivity.
Qed.

Lemma lstrip_snoc (l : pystr) (c : N) :
  isspace c = false -> lstrip (l ++ [c]) = lstrip l ++ [c].
Proof.
  intros Hc; rewrite lstrip_app.
  destruct (forallb isspace l) eqn:E; [|reflexivity].
  apply lstrip_nil_iff in E; rewrite E; simpl; rewrite Hc; reflexivity.
Qed.

Lemma rstrip_cons (c : N) (y : pystr) :
  isspace c = false -> rstrip (c :: y) = c :: rstrip y.
Proof.
  intros Hc; unfold rstrip; simpl.
  rewrite lstrip_snoc by exact Hc; rewrite rev_app_distr; reflexivity.
Qed.

Lemma strip_idem (s : pystr) : strip (strip s) = strip s.
Proof.
  unfold strip.
  pose proof (lstrip_head s) as H.
  destruct (lstrip s) as [|c t] eqn:E.
  - reflexivity.
  - rewrite rstrip_cons by exact H; simpl; rewrite H.
    rewrite <- rstrip_cons by exact H.
    unfold rstrip; rewrite rev_involutive, lstrip_idem; reflexivity.
Qed.

Lemma strip_nil_iff (s : pystr) : strip s = [] <-> forallb isspace s = true.
Proof.
  unfold strip, rstrip; rewrite <- lstrip_nil_iff.
  pose proof (lstrip_head s) as H.
  destruct (lstrip s) as [|c t]; simpl; [tauto|].
  rewrite lstrip_snoc by exact H; split; intros E.
  - apply (f_equal (@List.length N)) in E; rewrite length_rev, length_app in E; simpl in E; lia.
  - discriminate.
Qed.

Lemma lstrip_incl (s : pystr) (c : N) : In c (lstrip s) -> In c s.
Proof.
  induction s as [|d s IH]; simpl; [tauto|].
  destruct (isspace d); simpl; intuition.
Qed.

Lemma strip_incl (s : pystr) (c : N) : In c (strip s) -> In c s.
Proof.
  unfold strip, rstrip; intros H.
  apply in_rev, lstrip_incl, in_rev, lstrip_incl in H; exact H.
Qed.

(** ** Splitting and joining on newline *)

Lemma split_nl_not_nil (s : pystr) : split_nl s <> [].
Proof.
  induction s as [|c s IH]; simpl; [discriminate|].
  destruct (c =? nl)%N; [discriminate|].
  destruct (split_nl s); discriminate.
Qed.

Lemma split_nl_app_plain (x m : pystr) :
  ~ In nl x ->
  split_nl (x ++ m) = match split_nl m with
                      | p :: ps => (x ++ p) :: ps
                      | [] => [x]
                      end.
Proof.
  induction x as [|c x IH]; intros Hx; simpl.
  - destruct (split_nl m) eqn:E; [exfalso; exact (split_nl_not_nil m E)|reflexivity].
  - assert (Hc : (c =? nl)%N = false) by (apply N.eqb_neq; intros ->; apply Hx; left; reflexivity).
    rewrite Hc, IH by (intros H; apply Hx; right; exact H).
    destruct (split_nl m) eqn:E; [exfalso; exact (split_nl_not_nil m E)|reflexivity].
Qed.

Lemma split_join_nl (l : list pystr) :
  l <> [] -> Forall (fun x => ~ In nl x) l -> split_nl (join_nl l) = l.
Proof.
  induction l as [|x l IH]; intros Hne Hf; [congruence|].
  inversion Hf as [|? ? Hx Hl]; subst.
  destruct l as [|y l].
  - simpl. rewrite <- (app_nil_r x) at 1. rewrite split_nl_app_plain by exact Hx.
    simpl; rewrite app_nil_r; reflexivity.
  - change (join_nl (x :: y :: l)) with (x ++ nl :: join_nl (y :: l)).
    rewrite split_nl_app_plain by exact Hx.
    change (split_nl (nl :: join_nl (y :: l))) with ([] :: split_nl (join_nl (y :: l))).
    rewrite IH by (discriminate || exact Hl).
    rewrite app_nil_r; reflexivity.
Qed.

Lemma split_nl_parts (s : pystr) :
  Forall (fun p => ~ In nl p /\ forall c, In c p -> In c s) (split_nl s).
Proof.
  induction s as [|c s IH]; simpl.
  - constructor; [split; [tauto | intros c []] | constructor].
  - destruct (c =? nl)%N eqn:E.
    + constructor; [split; [tauto | intros ? []]|].
      eapply Forall_impl; [|exact IH]; intros p [H1 H2]; split; [exact H1|].
      intros d Hd; right; apply H2, Hd.
    + destruct (split_nl s) as [|p ps] eqn:Es; [exfalso; exact (split_nl_not_nil s Es)|].
      inversion IH as [|? ? [Hp1 Hp2] Hps]; subst.
      constructor.
      * split.
        -- intros [H|H]; [apply N.eqb_neq in E; congruence | exact (Hp1 H)].
        -- intros d [<-|Hd]; [left; reflexivity | right; apply Hp2, Hd].
      * eapply Forall_impl; [|exact Hps]; intros q [H1 H2]; split; [exact H1|].
        intros d Hd; right; apply H2, Hd.
Qed.

(** ** The dedup loop *)

Lemma dedup_loop_spec (seen l : list pystr) :
  NoDup (dedup_loop seen l) /\
  (forall x, In x (dedup_loop seen l) <-> In x l /\ ~ In x seen).
Proof.
  revert seen; induction l as [|v l IH]; intros seen; simpl.
  - split; [constructor | tauto].
  - destruct (mem v seen) eqn:E.
    + apply mem_In in E. destruct (IH seen) as [H1 H2]; split; [exact H1|].
      intros x; rewrite H2; split; [tauto|].
      intros [[<-|Hx] Hn]; [contradiction | tauto].
    + apply mem_notIn in E. destruct (IH (v :: seen)) as [H1 H2]; split.
      * constructor; [rewrite H2; simpl; tauto | exact H1].
      * intros x; simpl; rewrite H2; simpl.
        destruct (list_eq_dec N.eq_dec v x) as [<-|Hvx]; [tauto|].
        split; [intros [H|[H Hn]]; [congruence | tauto] | intros [[H|H] Hn]; [congruence | tauto]].
Qed.

Lemma dedup_loop_all_seen (seen m : list pystr) :
  (forall x, In x m -> In x seen) -> dedup_loop seen m = [].
Proof.
  induction m as [|v m IH]; intros H; simpl; [reflexivity|].
  assert (Hv : mem v seen = true) by (apply mem_In, H; left; reflexivity).
  rewrite Hv; apply IH; intros x Hx; apply H; right; exact Hx.
Qed.

Lemma dedup_loop_prefix (seen l m : list pystr) :
  NoDup l -> (forall x, In x l -> ~ In x seen) ->
  (forall x, In x m -> In x l \/ In x seen) ->
  dedup_loop seen (l ++ m) = l.
Proof.
  revert seen; induction l as [|v l IH]; intros seen Hnd Hl Hm; simpl.
  - apply dedup_loop_all_seen; intros x Hx; destruct (Hm x Hx) as [[]|H]; exact H.
  - inversion Hnd as [|? ? Hv Hnd']; subst.
    assert (E : mem v seen = false) by (apply mem_notIn, Hl; left; reflexivity).
    rewrite E, IH; [reflexivity | exact Hnd' | |].
    + intros x Hx [<-|Hs]; [contradiction | exact (Hl x (or_intror Hx) Hs)].
    + intros x Hx; destruct (Hm x Hx) as [[<-|H]|H]; simpl; tauto.
Qed.

(** ** The multiline merge *)

Definition entry_ok (x : pystr) : Prop := x <> [] /\ strip x = x /\ ~ In nl x.

Lemma filter_strip_blank (l : list pystr) :
  (forall p, In p l -> strip p = []) -> filter nonempty (map strip l) = [].
Proof.
  induction l as [|p l IH]; intros H; simpl; [reflexivity|].
  rewrite (H p (or_introl eq_refl)); simpl; apply IH; intros q Hq; apply H; right; exact Hq.
Qed.

(** The guard [if existing_value and existing_value.strip()] changes
    nothing: a blank value has only blank lines. *)
Lemma existing_lines_unguarded (e : pystr) :
  (if nonempty e && nonempty (strip e)
   then filter nonempty (map strip (split_nl e)) else [])
  = filter nonempty (map strip (split_nl e)).
Proof.
  destruct (nonempty e && nonempty (strip e)) eqn:G; [reflexivity|].
  symmetry; apply filter_strip_blank; intros p Hp.
  apply strip_nil_iff.
  destruct e as [|c e']; [simpl in Hp; destruct Hp as [<-|[]]; reflexivity|].
  simpl in G. destruct (strip (c :: e')) eqn:Es; [|discriminate].
  apply strip_nil_iff in Es. apply forallb_forall; intros d Hd.
  pose proof (split_nl_parts (c :: e')) as Hparts.
  rewrite Forall_forall in Hparts. destruct (Hparts p Hp) as [_ Hin].
  rewrite forallb_forall in Es; apply Es, Hin, Hd.
Qed.

Lemma merge_multiline_data_eq (e : pystr) (nv : list pystr) :
  merge_multiline_data e nv =
  join_nl (dedup_loop [] (filter nonempty (map strip (split_nl e))
                          ++ filter nonempty (map strip nv))).
Proof. unfold merge_multiline_data; rewrite existing_lines_unguarded; reflexivity. Qed.

Lemma existing_entries_ok (e : pystr) :
  Forall entry_ok (filter nonempty (map strip (split_nl e))).
Proof.
  apply Forall_forall; intros x Hx.
  apply filter_In in Hx as [Hx Hne]; apply in_map_iff in Hx as [p [<- Hp]].
  pose proof (split_nl_parts e) as Hparts; rewrite Forall_forall in Hparts.
  destruct (Hparts p Hp) as [Hnl _].
  split; [destruct (strip p); [discriminate | discriminate] | split; [apply strip_idem|]].
  intros H; apply Hnl, strip_incl, H.
Qed.

Lemma new_entries_ok (nv : list pystr) :
  (forall v, In v nv -> ~ In nl (strip v)) ->
  Forall entry_ok (filter nonempty (map strip nv)).
Proof.
  intros H; apply Forall_forall; intros x Hx.
  apply filter_In in Hx as [Hx Hne]; apply in_map_iff in Hx as [v [<- Hv]].
  split; [destruct (strip v); [discriminate | discriminate] | split; [apply strip_idem | apply H, Hv]].
Qed.

Lemma lines_of_join (l : list pystr) :
  l <> [] -> Forall entry_ok l -> filter nonempty (map strip (split_nl (join_nl l))) = l.
Proof.
  intros Hne Hok.
  rewrite split_join_nl; [| exact Hne | eapply Forall_impl; [|exact Hok]; intros x [_ [_ H]]; exact H].
  induction l as [|x l IH]; [reflexivity|].
  inversion Hok as [|? ? [Hx1 [Hx2 _]] Hl]; subst; simpl.
  rewrite Hx2; destruct x as [|c x]; [congruence|]; simpl.
  destruct l as [|y l]; [reflexivity|]; rewrite IH by (discriminate || exact Hl); reflexivity.
Qed.

(** What [_merge_multiline_data] returns, entry by entry *)
Lemma merge_multiline_data_entries (e : pystr) (nv : list pystr) :
  (forall v, In v nv -> ~ In nl (strip v)) ->
  let l := dedup_loop [] (filter nonempty (map strip (split_nl e))
                          ++ filter nonempty (map strip nv)) in
  merge_multiline_data e nv = join_nl l /\ NoDup l /\ Forall entry_ok l /\
  (forall x, In x l <-> In x (filter nonempty (map strip (split_nl e))
                              ++ filter nonempty (map strip nv))).
Proof.
  intros Hnv l; subst l.
  destruct (dedup_loop_spec [] (filter nonempty (map strip (split_nl e))
                                ++ filter nonempty (map strip nv))) as [Hnd Hin].
  split; [apply merge_multiline_data_eq|]; split; [exact Hnd|]; split.
  - apply Forall_forall; intros x Hx; apply Hin in Hx as [Hx _].
    apply in_app_or in Hx as [Hx|Hx].
    + exact (proj1 (Forall_forall _ _) (existing_entries_ok e) x Hx).
    + exact (proj1 (Forall_forall _ _) (new_entries_ok nv Hnv) x Hx).
  - intros x; rewrite Hin; simpl; tauto.
Qed.

Lemma merge_multiline_data_idem (e : pystr) (nv : list pystr) :
  (forall v, In v nv -> ~ In nl (strip v)) ->
  filter nonempty (map strip nv) <> [] ->
  merge_multiline_data (merge_multiline_data e nv) nv = merge_multiline_data e nv.
Proof.
  intros Hnv Hne.
  destruct (merge_multiline_data_entries e nv Hnv) as [Heq [Hnd [Hok Hin]]].
  set (l := dedup_loop [] _) in *.
  assert (Hl : l <> []).
  { destruct (filter nonempty (map strip nv)) as [|v vs] eqn:Ev; [congruence|].
    intros E. assert (Hv : In v l) by (apply Hin, in_or_app; right; left; reflexivity).
    rewrite E in Hv; destruct Hv. }
  rewrite (merge_multiline_data_eq (merge_multiline_data e nv)), Heq.
  rewrite lines_of_join by assumption.
  rewrite dedup_loop_prefix; [reflexivity | exact Hnd | intros x _ [] |].
  intros x Hx; left; apply Hin, in_or_app; right; exact Hx.
Qed.

Lemma join_nl_nil (l : list pystr) : Forall entry_ok l -> join_nl l = [] -> l = [].
Proof.
  intros Hok; destruct l as [|x l]; [reflexivity|].
  inversion Hok as [|? ? [Hx _] _]; subst.
  destruct l; simpl; [intros; contradiction|].
  destruct x; [contradiction | discriminate].
Qed.

(** ** C1: the multiline merge *)

(** C1 (as stated, refuted): the existing value is not just split on
    newline; its lines are trimmed, so [" A\nB"] merged with [["C"]]
    gives ["A\nB\nC"], not [" A\nB\nC"]. *)
Lemma C1_untrimmed_existing_line :
  merge_multiline_data (u " A" ++ nl :: u "B") [u "C"] = u "A" ++ nl :: u "B" ++ nl :: u "C" /\
  merge_multiline_data (u " A" ++ nl :: u "B") [u "C"] <>
  join_nl (dedup_loop [] (split_nl (u " A" ++ nl :: u "B") ++ filter nonempty (map strip [u "C"]))).
Proof. split; [reflexivity | vm_compute; discriminate]. Qed.

(** C1 (amended): the multiline merge splits the existing value on
    newline, trims every line and drops the blank ones, appends the
    trimmed non-empty new values, removes duplicates keeping the first
    occurrence, and joins with newline; merging ["A\nB"] with
    [["B"; "C"]] gives ["A\nB\nC"]. *)
Theorem C1_merge_multiline :
  (forall (existing_value : pystr) (new_values : list pystr),
     merge_multiline_data existing_value new_values =
     join_nl (dedup_loop [] (filter nonempty (map strip (split_nl existing_value))
                             ++ filter nonempty (map strip new_values)))) /\
  merge_multiline_data (u "A" ++ nl :: u "B") [u "B"; u "C"] = u "A" ++ nl :: u "B" ++ nl :: u "C".
Proof. split; [exact merge_multiline_data_eq | reflexivity]. Qed.

(** ** C10: shape of the merged value *)

(** C10 (as stated, refuted): when every value is blank the result is
    the empty string, and [''.split('\n')] is [['']], an empty entry. *)
Lemma C10_blank_result_has_empty_entry :
  merge_multiline_data [] [] = [] /\ In [] (split_nl (merge_multiline_data [] [])).
Proof. split; [reflexivity | left; reflexivity]. Qed.

(** C10 (amended): if no new value contains a newline once trimmed, the
    merged value is the empty string exactly when the existing value and
    all new values are blank; otherwise, split on newline, it has no
    duplicate entry, no empty entry, and every entry is trimmed. *)
Theorem C10_merge_multiline_shape (existing_value : pystr) (new_values : list pystr)
  (Hnl : forall v, In v new_values -> ~ In nl (strip v)) :
  let out := merge_multiline_data existing_value new_values in
  (out = [] <-> filter nonempty (map strip (split_nl existing_value))
               ++ filter nonempty (map strip new_values) = []) /\
  (out <> [] ->
   NoDup (split_nl out) /\ Forall (fun x => x <> [] /\ strip x = x) (split_nl out)).
Proof.
  intros out; subst out.
  destruct (merge_multiline_data_entries existing_value new_values Hnl) as [Heq [Hnd [Hok Hin]]].
  set (l := dedup_loop [] _) in *.
  set (src := filter nonempty _ ++ filter nonempty _) in *.
  rewrite Heq; split.
  - split.
    + intros E; apply join_nl_nil in E; [|exact Hok].
      destruct src as [|x s] eqn:Es; [reflexivity|].
      exfalso; assert (Hx : In x l) by (apply Hin; left; reflexivity).
      rewrite E in Hx; destruct Hx.
    + intros E; destruct l as [|x l'] eqn:El; [reflexivity|].
      exfalso; assert (Hx : In x src) by (apply Hin; left; reflexivity).
      rewrite E in Hx; destruct Hx.
  - intros Hne. assert (Hl : l <> []) by (intros E; rewrite E in Hne; apply Hne; reflexivity).
    rewrite split_join_nl; [| exact Hl | eapply Forall_impl; [|exact Hok]; intros x [_ [_ H]]; exact H].
    split; [exact Hnd|]. eapply Forall_impl; [|exact Hok]; intros x [H1 [H2 _]]; tauto.
Qed.

Lemma C10_merge_multiline_shape_witness :
  (forall v, In v [u "B"; u "C"] -> ~ In nl (strip v)) /\
  merge_multiline_data (u "A" ++ nl :: u "B") [u "B"; u "C"] <> [] /\
  NoDup (split_nl (merge_multiline_data (u "A" ++ nl :: u "B") [u "B"; u "C"])).
Proof.
  assert (H : forall v, In v [u "B"; u "C"] -> ~ In nl (strip v)).
  { intros v [<-|[<-|[]]]; vm_compute; intros [H|[]]; discriminate. }
  split; [exact H|].
  pose proof (C10_merge_multiline_shape (u "A" ++ nl :: u "B") [u "B"; u "C"] H) as [_ K].
  split; [vm_compute; discriminate|].
  apply K; vm_compute; discriminate.
Defined.

(** ** C6: the representative column *)

Definition rep_record (flag name : pystr) : record :=
  [(col_rep_flag, flag); (col_name, name)].

Lemma representatives_loop_eq (rs : list record) :
  representatives_loop rs =
  filter nonempty (map (fun r => strip (lookup r col_name))
                       (filter (fun r => is_representative (lookup r col_rep_flag)) rs)).
Proof.
  induction rs as [|r rs IH]; simpl; [reflexivity|].
  destruct (is_representative (lookup r col_rep_flag)); simpl; [|exact IH].
  destruct (strip (lookup r col_name)); simpl; rewrite IH; reflexivity.
Qed.

(** C6 (as stated, refuted): the names of the representatives are not
    all joined; a representative whose name is blank is skipped, so two
    [예] responses named ["A"] and [""] give ["A"], not ["A\n"]. *)
Lemma C6_blank_name_skipped :
  let rs := [rep_record (u "예") (u "A"); rep_record (u "예") []] in
  extract_representatives rs = u "A" /\
  extract_representatives rs <>
  join_nl (map (fun r => lookup r col_name)
               (filter (fun r => is_representative (lookup r col_rep_flag)) rs)).
Proof. split; [reflexivity | vm_compute; discriminate]. Qed.



(** ** Records *)

Section Records.
Implicit Types (r : record) (c d k : pystr) (v w : pystr).

Lemma lookup_rec_set_same r c v : has_key r c = true -> lookup (rec_set r c v) c = v.
Proof.
  induction r as [|[k w] r IH]; simpl; [discriminate|].
  destruct (streqb k c) eqn:E; simpl; rewrite ?E; [reflexivity|exact IH].
Qed.

Lemma lookup_rec_set_other r c d v : c <> d -> lookup (rec_set r d v) c = lookup r c.
Proof.
  intros Hcd; induction r as [|[k w] r IH]; simpl; [reflexivity|].
  destruct (streqb k d) eqn:E; simpl.
  - streq_simpl. assert (streqb d c = false) as -> by (apply streqb_false; congruence).
    exact IH.
  - destruct (streqb k c); [reflexivity|exact IH].
Qed.

Lemma rec_set_nokey r c v : has_key r c = false -> rec_set r c v = r.
Proof.
  induction r as [|[k w] r IH]; simpl; [reflexivity|].
  destruct (streqb k c); simpl; [discriminate|]; intros H; rewrite IH by exact H; reflexivity.
Qed.

Lemma lookup_nokey r c : has_key r c = false -> lookup r c = [].
Proof.
  induction r as [|[k w] r IH]; simpl; [reflexivity|].
  destruct (streqb k c); simpl; [discriminate|exact IH].
Qed.

Lemma has_key_rec_set r c d v : has_key (rec_set r d v) c = has_key r c.
Proof.
  induction r as [|[k w] r IH]; simpl; [reflexivity|].
  destruct (streqb k d); simpl; rewrite IH; reflexivity.
Qed.

Lemma rec_set_comm r c d v w :
  c <> d -> rec_set (rec_set r c v) d w = rec_set (rec_set r d w) c v.
Proof.
  intros Hcd; induction r as [|[k x] r IH]; simpl; [reflexivity|].
  rewrite IH; f_equal.
  destruct (streqb k c) eqn:Ec, (streqb k d) eqn:Ed; simpl; rewrite ?Ec, ?Ed; try reflexivity.
  apply streqb_true in Ec; apply streqb_true in Ed; congruence.
Qed.

Lemma rec_set_twice r c v w : rec_set (rec_set r c v) c w = rec_set r c w.
Proof.
  induction r as [|[k x] r IH]; simpl; [reflexivity|].
  rewrite IH; destruct (streqb k c) eqn:E; simpl; rewrite ?E; reflexivity.
Qed.

Lemma has_key_app_single r c k v :
  has_key (r ++ [(k, v)]) c = has_key r c || streqb k c.
Proof. unfold has_key; rewrite existsb_app; simpl; rewrite orb_false_r; reflexivity. Qed.

Lemma lookup_app_single_other r c k v : c <> k -> lookup (r ++ [(k, v)]) c = lookup r c.
Proof.
  intros H; induction r as [|[k' w] r IH]; simpl.
  - assert (streqb k c = false) as -> by (apply streqb_false; congruence); reflexivity.
  - destruct (streqb k' c); [reflexivity|exact IH].
Qed.

Lemma lookup_app_single_nokey r k v : has_key r k = false -> lookup (r ++ [(k, v)]) k = v.
Proof.
  induction r as [|[k' w] r IH]; simpl; [rewrite streqb_refl; reflexivity|].
  destruct (streqb k' k); simpl; [discriminate|exact IH].
Qed.

Lemma lookup_rec_assign_same r k v : lookup (rec_assign r k v) k = v.
Proof.
  unfold rec_assign; destruct (has_key r k) eqn:E.
  - apply lookup_rec_set_same, E.
  - apply lookup_app_single_nokey, E.
Qed.

Lemma lookup_rec_assign_other r c k v : c <> k -> lookup (rec_assign r k v) c = lookup r c.
Proof.
  intros H; unfold rec_assign; destruct (has_key r k).
  - apply lookup_rec_set_other, H.
  - apply lookup_app_single_other, H.
Qed.

Lemma has_key_rec_assign_other r c k v : c <> k -> has_key (rec_assign r k v) c = has_key r c.
Proof.
  intros H; unfold rec_assign; destruct (has_key r k).
  - apply has_key_rec_set.
  - rewrite has_key_app_single.
    assert (streqb k c = false) as -> by (apply streqb_false; congruence).
    apply orb_false_r.
Qed.

Lemma lookup_rec_drop_other r c k : c <> k -> lookup (rec_drop r k) c = lookup r c.
Proof.
  intros H; induction r as [|[k' w] r IH]; simpl; [reflexivity|].
  destruct (streqb k' k) eqn:E; simpl.
  - streq_simpl. assert (streqb k c = false) as -> by (apply streqb_false; congruence).
    exact IH.
  - destruct (streqb k' c); [reflexivity|exact IH].
Qed.

Lemma has_key_rec_drop_same r k : has_key (rec_drop r k) k = false.
Proof.
  induction r as [|[k' w] r IH]; simpl; [reflexivity|].
  destruct (streqb k' k) eqn:E; simpl; [exact IH|rewrite E; exact IH].
Qed.

Lemma rec_drop_nokey r k : has_key r k = false -> rec_drop r k = r.
Proof.
  induction r as [|[k' w] r IH]; simpl; [reflexivity|].
  destruct (streqb k' k); simpl; [discriminate|]; intros H; rewrite IH by exact H; reflexivity.
Qed.

Lemma rec_drop_app_single r k v : rec_drop (r ++ [(k, v)]) k = rec_drop r k.
Proof.
  unfold rec_drop; rewrite filter_app; simpl; rewrite streqb_refl; simpl; apply app_nil_r.
Qed.

Lemma rec_drop_rec_set_other r c k v :
  c <> k -> rec_drop (rec_set r c v) k = rec_set (rec_drop r k) c v.
Proof.
  intros H; induction r as [|[k' w] r IH]; simpl; [reflexivity|].
  destruct (streqb k' c) eqn:Ec; simpl.
  - streq_simpl. assert (streqb c k = false) as -> by (apply streqb_false; exact H).
    simpl; rewrite streqb_refl, IH; reflexivity.
  - destruct (streqb k' k); simpl; rewrite IH; [reflexivity|rewrite Ec; reflexivity].
Qed.

End Records.

(** ** A matched row as a list of column updates *)

(** [df.at[i, c] = g(df.at[i, c])] *)
Definition col_upd := (pystr * (pystr -> pystr))%type.

Definition apply_upd (x : col_upd) (r : record) : record :=
  rec_set r (fst x) (snd x (lookup r (fst x))).

Definition apply_all (U : list col_upd) (r : record) : record :=
  fold_left (fun r x => apply_upd x r) U r.

Definition mapping_update (rf : frame) (admin_cols : list pystr) (g : group)
  (m : pystr * pystr) : list col_upd :=
  let '(response_col, admin_col) := m in
  if mem admin_col protected_columns then []
  else if mem response_col (cols rf) && mem admin_col admin_cols then
    match new_values_for g response_col with
    | [] => []
    | nv => [(admin_col, fun old => merge_multiline_data old nv)]
    end
  else [].

Definition row_updates (mapping : list (pystr * pystr)) (rf : frame)
  (admin_cols : list pystr) (g : group) : list col_upd :=
  (if mem col_uuid admin_cols then [(col_uuid, fun _ => generate_uuid_from_df g)] else [])
  ++ (if mem col_rep_name admin_cols
      then [(col_rep_name, fun _ => extract_representatives (map snd g))] else [])
  ++ flat_map (mapping_update rf admin_cols g) mapping.

Lemma apply_all_app (U V : list col_upd) (r : record) :
  apply_all (U ++ V) r = apply_all V (apply_all U r).
Proof. unfold apply_all; apply fold_left_app. Qed.

Lemma apply_all_opt (m : bool) c v r :
  apply_all (if m then [(c, fun _ : pystr => v)] else []) r = if m then rec_set r c v else r.
Proof. destruct m; reflexivity. Qed.

Lemma merge_row_updates mapping rf admin_cols r :
  merge_row mapping rf admin_cols r =
  match group_of rf (lookup r col_KEY) with
  | [] => r
  | g => apply_all (row_updates mapping rf admin_cols g) r
  end.
Proof.
  unfold merge_row, row_updates.
  destruct (group_of rf (lookup r col_KEY)) as [|p ps]; [reflexivity|].
  set (g := p :: ps).
  rewrite !apply_all_app, !apply_all_opt.
  match goal with |- fold_left _ _ ?x = _ => generalize x as r0 end.
  induction mapping as [|[rc ac] mapping IH]; intros r0; [reflexivity|].
  cbn [fold_left flat_map]; rewrite apply_all_app, <- IH; f_equal.
  unfold mapping_update.
  destruct (mem ac protected_columns); [reflexivity|].
  destruct (mem rc (cols rf) && mem ac admin_cols); [|reflexivity].
  destruct (new_values_for g rc); reflexivity.
Qed.

Lemma lookup_apply_upd_other (x : col_upd) r c :
  c <> fst x -> lookup (apply_upd x r) c = lookup r c.
Proof. intros H; apply lookup_rec_set_other, H. Qed.

Lemma has_key_apply_all U r c : has_key (apply_all U r) c = has_key r c.
Proof.
  revert r; induction U as [|x U IH]; intros r; [reflexivity|].
  simpl; rewrite IH; apply has_key_rec_set.
Qed.

Lemma lookup_apply_all_other U r c :
  ~ In c (map fst U) -> lookup (apply_all U r) c = lookup r c.
Proof.
  revert r; induction U as [|x U IH]; intros r Hc; [reflexivity|].
  simpl in *; rewrite IH by tauto; apply lookup_apply_upd_other; intros ->; tauto.
Qed.

Lemma lookup_apply_all_const U1 U2 r c v :
  has_key r c = true -> ~ In c (map fst U2) ->
  lookup (apply_all (U1 ++ (c, fun _ => v) :: U2) r) c = v.
Proof.
  intros Hk Hc; rewrite apply_all_app; simpl.
  rewrite lookup_apply_all_other by exact Hc.
  unfold apply_upd; simpl; apply lookup_rec_set_same; rewrite has_key_apply_all; exact Hk.
Qed.

Lemma rec_drop_apply_all U r k :
  ~ In k (map fst U) -> rec_drop (apply_all U r) k = apply_all U (rec_drop r k).
Proof.
  revert r; induction U as [|[c g] U IH]; intros r Hk; [reflexivity|].
  simpl in *; rewrite IH by tauto; f_equal.
  unfold apply_upd; simpl.
  rewrite rec_drop_rec_set_other by (intros ->; tauto).
  rewrite lookup_rec_drop_other by (intros ->; tauto); reflexivity.
Qed.

Lemma apply_all_cons (x : col_upd) U r : apply_all (x :: U) r = apply_all U (apply_upd x r).
Proof. reflexivity. Qed.

Lemma apply_upd_comm (x y : col_upd) r :
  fst x <> fst y -> apply_upd x (apply_upd y r) = apply_upd y (apply_upd x r).
Proof.
  destruct x as [c g], y as [d h]; simpl; intros Hcd; unfold apply_upd; simpl.
  rewrite !lookup_rec_set_other by congruence.
  apply rec_set_comm; congruence.
Qed.

Lemma apply_upd_idem c (g : pystr -> pystr) r :
  (forall v, g (g v) = g v) -> apply_upd (c, g) (apply_upd (c, g) r) = apply_upd (c, g) r.
Proof.
  intros Hg; unfold apply_upd; simpl.
  destruct (has_key r c) eqn:E.
  - rewrite lookup_rec_set_same by exact E; rewrite Hg; apply rec_set_twice.
  - rewrite !rec_set_nokey by (rewrite ?has_key_rec_set; exact E); reflexivity.
Qed.

Lemma apply_all_comm_one (x : col_upd) U r :
  ~ In (fst x) (map fst U) -> apply_all U (apply_upd x r) = apply_upd x (apply_all U r).
Proof.
  revert r; induction U as [|y U IH]; intros r Hx; [reflexivity|].
  simpl in *; rewrite apply_upd_comm by (intros E; rewrite E in Hx; tauto).
  apply IH; tauto.
Qed.

Definition upd_idem (x : col_upd) : Prop := forall v, snd x (snd x v) = snd x v.

(** Updates of distinct columns, each idempotent, are idempotent together *)
Lemma apply_all_idem U r :
  NoDup (map fst U) -> Forall upd_idem U -> apply_all U (apply_all U r) = apply_all U r.
Proof.
  revert r; induction U as [|[c g] U IH]; intros r Hnd Hid; [reflexivity|].
  inversion Hnd as [|? ? Hc Hnd']; subst. inversion Hid as [|? ? Hg Hid']; subst.
  rewrite !apply_all_cons.
  rewrite <- (apply_all_comm_one (c, g) U (apply_upd (c, g) r)) by exact Hc.
  rewrite apply_upd_idem by exact Hg.
  apply IH; assumption.
Qed.

(** The columns a matched row's updates touch *)
Lemma mapping_update_cols rf admin_cols g m c :
  In c (map fst (mapping_update rf admin_cols g m)) ->
  c = snd m /\ ~ In c protected_columns.
Proof.
  destruct m as [rc ac]; unfold mapping_update.
  destruct (mem ac protected_columns) eqn:Ep; [intros []|].
  destruct (mem rc (cols rf) && mem ac admin_cols); [|intros []].
  destruct (new_values_for g rc); [intros []|].
  intros [<-|[]]; split; [reflexivity | apply mem_notIn, Ep].
Qed.

Lemma mapping_updates_cols mapping rf admin_cols g c :
  In c (map fst (flat_map (mapping_update rf admin_cols g) mapping)) ->
  In c (map snd mapping) /\ ~ In c protected_columns.
Proof.
  induction mapping as [|m mapping IH]; cbn [flat_map map]; [intros []|].
  rewrite map_app; intros H; apply in_app_or in H as [H|H].
  - apply mapping_update_cols in H as [-> H]; split; [left; reflexivity | exact H].
  - apply IH in H as [H1 H2]; split; [right; exact H1 | exact H2].
Qed.

Lemma mapping_updates_nodup mapping rf admin_cols g :
  NoDup (map snd mapping) ->
  NoDup (map fst (flat_map (mapping_update rf admin_cols g) mapping)).
Proof.
  induction mapping as [|m mapping IH]; cbn [flat_map map]; intros Hnd; [constructor|].
  inversion Hnd as [|? ? Hm Hnd']; subst.
  rewrite map_app; apply NoDup_app; [| apply IH, Hnd' |].
  - destruct m as [rc ac]; unfold mapping_update.
    destruct (mem ac protected_columns); [constructor|].
    destruct (mem rc (cols rf) && mem ac admin_cols); [|constructor].
    destruct (new_values_for g rc); repeat constructor; intros [].
  - intros a Ha Ha'. apply mapping_update_cols in Ha as [-> _].
    apply mapping_updates_cols in Ha' as [Ha' _]; contradiction.
Qed.

Lemma row_updates_cols mapping rf admin_cols g c :
  In c (map fst (row_updates mapping rf admin_cols g)) ->
  c = col_uuid \/ c = col_rep_name \/ (In c (map snd mapping) /\ ~ In c protected_columns).
Proof.
  unfold row_updates; rewrite !map_app; intros H.
  apply in_app_or in H as [H|H].
  { destruct (mem col_uuid admin_cols); simpl in H; [destruct H as [<-|[]]; tauto | destruct H]. }
  apply in_app_or in H as [H|H].
  { destruct (mem col_rep_name admin_cols); simpl in H; [destruct H as [<-|[]]; tauto | destruct H]. }
  apply mapping_updates_cols in H; tauto.
Qed.

Lemma uuid_not_protected : ~ In col_uuid protected_columns.
Proof. apply mem_notIn; reflexivity. Qed.

Lemma rep_name_not_protected : ~ In col_rep_name protected_columns.
Proof. apply mem_notIn; reflexivity. Qed.

Lemma KEY_not_protected : ~ In col_KEY protected_columns.
Proof. apply mem_notIn; reflexivity. Qed.

(** A protected column of a row is never touched by [merge_row] *)
Lemma merge_row_protected mapping rf admin_cols r c :
  In c protected_columns -> lookup (merge_row mapping rf admin_cols r) c = lookup r c.
Proof.
  intros Hc; rewrite merge_row_updates.
  destruct (group_of rf (lookup r col_KEY)) as [|p ps]; [reflexivity|].
  apply lookup_apply_all_other; intros H.
  apply row_updates_cols in H as [->|[->|[_ H]]].
  - exact (uuid_not_protected Hc).
  - exact (rep_name_not_protected Hc).
  - exact (H Hc).
Qed.

(** ** Frames *)

Lemma create_key_ok (f f' : frame) :
  create_key f = Ok f' ->
  In col_dong (cols f) /\ In col_hosu (cols f) /\
  cols f' = (if mem col_KEY (cols f) then cols f else cols f ++ [col_KEY]) /\
  rows f' = map (fun r => rec_assign r col_KEY (unit_key r)) (rows f).
Proof.
  unfold create_key.
  destruct (mem col_dong (cols f)) eqn:E1; [|discriminate].
  destruct (mem col_hosu (cols f)) eqn:E2; [|discriminate].
  intros H; inversion H; subst; clear H.
  apply mem_In in E1, E2; simpl; tauto.
Qed.

Lemma create_key_cols (f f' : frame) c :
  create_key f = Ok f' -> In c (cols f') <-> In c (cols f) \/ c = col_KEY.
Proof.
  intros H; apply create_key_ok in H as [_ [_ [Hc _]]]; rewrite Hc.
  destruct (mem col_KEY (cols f)) eqn:E.
  - apply mem_In in E; split; [tauto|]; intros [H|H]; [exact H | subst c; exact E].
  - rewrite in_app_iff; simpl; split; intros [H|H]; try tauto; [destruct H as [H|[]]; right; congruence | right; left; congruence].
Qed.

Lemma group_of_In (rf : frame) k p :
  In p (group_of rf k) -> In (snd p) (rows rf) /\ lookup (snd p) col_KEY = k.
Proof.
  unfold group_of; intros H; apply filter_In in H as [H1 H2].
  destruct p as [i r]; apply in_combine_r in H1.
  apply streqb_true in H2; simpl in *; tauto.
Qed.

Lemma group_of_nil (R rf : frame) k :
  create_key R = Ok rf -> ~ In k (map unit_key (rows R)) -> group_of rf k = [].
Proof.
  intros HR Hk.
  destruct (group_of rf k) as [|p ps] eqn:E; [reflexivity|exfalso].
  assert (Hp : In p (group_of rf k)) by (rewrite E; left; reflexivity).
  apply group_of_In in Hp as [Hin Hkey].
  apply create_key_ok in HR as [_ [_ [_ Hrows]]].
  rewrite Hrows in Hin; apply in_map_iff in Hin as [r [Er Hr]].
  rewrite <- Er, lookup_rec_assign_same in Hkey; subst k.
  apply Hk, in_map, Hr.
Qed.

Lemma Forall2_map_self {X Y : Type} (f : X -> Y) (P : Y -> X -> Prop) (l : list X) :
  (forall x, In x l -> P (f x) x) -> Forall2 P (map f l) l.
Proof.
  induction l as [|x l IH]; intros H; simpl; constructor.
  - apply H; left; reflexivity.
  - apply IH; intros y Hy; apply H; right; exact Hy.
Qed.

(** The rows [merge_frames] hands to the writer *)
Lemma merge_frames_rows mapping (R A A1 : frame) :
  merge_frames mapping R A = Ok A1 ->
  exists rf af, create_key R = Ok rf /\ create_key A = Ok af /\
    cols (update_df A1) = filter (fun c => negb (streqb c col_KEY)) (cols af) /\
    rows (update_df A1) =
    map (fun r => rec_drop (merge_row mapping rf (cols af)
                              (rec_assign r col_KEY (unit_key r))) col_KEY) (rows A).
Proof.
  unfold merge_frames.
  destruct (create_key R) as [rf|] eqn:ER; [|discriminate].
  destruct (create_key A) as [af|] eqn:EA; [|discriminate].
  intros H; inversion H; subst; clear H.
  exists rf, af; split; [reflexivity|]; split; [reflexivity|]; split; [reflexivity|].
  apply create_key_ok in EA as [_ [_ [_ Hrows]]].
  simpl; rewrite Hrows, !map_map; reflexivity.
Qed.

(** ** C2: protected columns *)

(** C2: whatever the column mapping, every protected column
    ([검토자1], [검토자2], [동], [호수], [타입], [비고],
    [카카오톡 닉네임+uuid]) of every admin row written back holds the
    value it had in the input row. *)
Theorem C2_protected_columns_unchanged (mapping : list (pystr * pystr)) (R A A1 : frame)
  (H : merge_frames mapping R A = Ok A1) :
  Forall2 (fun out inp => forall c, In c protected_columns -> lookup out c = lookup inp c)
          (rows (update_df A1)) (rows A).
Proof.
  destruct (merge_frames_rows mapping R A A1 H) as [rf [af [_ [_ [_ ->]]]]].
  apply Forall2_map_self; intros r _ c Hc.
  assert (HcK : c <> col_KEY) by (intros ->; exact (KEY_not_protected Hc)).
  rewrite lookup_rec_drop_other, merge_row_protected, lookup_rec_assign_other by assumption.
  reflexivity.
Qed.

Definition sample_response : frame :=
  mkFrame [col_dong; col_hosu; col_name; col_rep_flag]
    [[(col_dong, u "101"); (col_hosu, u "203"); (col_name, u "홍길동"); (col_rep_flag, u "예")];
     [(col_dong, u "101"); (col_hosu, u "203"); (col_name, u "김영희"); (col_rep_flag, [])]].

Definition sample_admin : frame :=
  mkFrame [col_dong; col_hosu; col_name; u "비고"; col_uuid; col_rep_name]
    [[(col_dong, u "101"); (col_hosu, u "203"); (col_name, []); (u "비고", u "memo");
      (col_uuid, u "old"); (col_rep_name, u "old")];
     [(col_dong, u "102"); (col_hosu, u "101"); (col_name, u "X"); (u "비고", []);
      (col_uuid, []); (col_rep_name, [])]].

(** A mapping that targets protected columns *)
Definition hostile_mapping : list (pystr * pystr) :=
  [(col_name, col_dong); (col_name, u "비고"); (col_name, col_name)].

Lemma C2_protected_columns_unchanged_witness :
  exists A1, merge_frames hostile_mapping sample_response sample_admin = Ok A1 /\
  Forall2 (fun out inp => forall c, In c protected_columns -> lookup out c = lookup inp c)
          (rows (update_df A1)) (rows sample_admin).
Proof.
  eexists; split; [vm_compute; reflexivity|].
  apply (C2_protected_columns_unchanged hostile_mapping sample_response sample_admin).
  vm_compute; reflexivity.
Defined.

(** A gateway that answers every call; [get_worksheet_by_id] only
    succeeds at the attempt [found_at]. *)
Definition sample_gateway (found_at : nat) : gateway :=
  mkGateway (fun _ => true) (fun _ => Some sample_response) (u "20250101_000000")
            (Some 7) (fun k => if Nat.eqb k found_at then Found else if Nat.eqb k 2 then Raises else Falsy)
            true [] true.

(** ** C3: row count, order and unmatched rows *)

Lemma rec_drop_rec_set_same r k v : rec_drop (rec_set r k v) k = rec_drop r k.
Proof.
  induction r as [|[k' w] r IH]; simpl; [reflexivity|].
  destruct (streqb k' k) eqn:E; simpl; rewrite E; simpl; rewrite IH; reflexivity.
Qed.

Lemma rec_drop_rec_assign_same r k v : rec_drop (rec_assign r k v) k = rec_drop r k.
Proof.
  unfold rec_assign; destruct (has_key r k);
    [apply rec_drop_rec_set_same | apply rec_drop_app_single].
Qed.

(** C3: the merge outputs as many rows as the admin input, row [i] of
    the output being the unit of row [i] of the input (same [동] and
    [호수]), without a [KEY] column or cell. A row whose key
    [strip(동) + "-" + strip(호수)] matches no response comes out as its
    input row with its [KEY] cell removed, so exactly as its input row
    when it has no [KEY] cell. *)
Theorem C3_merge_preserves_rows (mapping : list (pystr * pystr)) (R A A1 : frame)
  (H : merge_frames mapping R A = Ok A1) :
  List.length (rows (update_df A1)) = List.length (rows A) /\
  ~ In col_KEY (cols (update_df A1)) /\
  forall i r, nth_error (rows A) i = Some r ->
    exists o, nth_error (rows (update_df A1)) i = Some o /\
      lookup o col_dong = lookup r col_dong /\ lookup o col_hosu = lookup r col_hosu /\
      has_key o col_KEY = false /\
      (~ In (unit_key r) (map unit_key (rows R)) ->
       o = rec_drop r col_KEY /\ (has_key r col_KEY = false -> o = r)).
Proof.
  destruct (merge_frames_rows mapping R A A1 H) as [rf [af [HR [_ [Hcols Hrows]]]]].
  split; [rewrite Hrows; apply length_map|].
  split.
  { rewrite Hcols; intros Hin; apply filter_In in Hin as [_ Hk].
    rewrite streqb_refl in Hk; discriminate. }
  intros i r Hi; rewrite Hrows, nth_error_map, Hi; simpl.
  eexists; split; [reflexivity|].
  assert (Hd : col_dong <> col_KEY) by (apply streqb_false; reflexivity).
  assert (Hh : col_hosu <> col_KEY) by (apply streqb_false; reflexivity).
  assert (Pd : In col_dong protected_columns) by (apply mem_In; reflexivity).
  assert (Ph : In col_hosu protected_columns) by (apply mem_In; reflexivity).
  split; [rewrite lookup_rec_drop_other, merge_row_protected, lookup_rec_assign_other by assumption;
          reflexivity|].
  split; [rewrite lookup_rec_drop_other, merge_row_protected, lookup_rec_assign_other by assumption;
          reflexivity|].
  split; [apply has_key_rec_drop_same|].
  intros Hnm.
  rewrite merge_row_updates, lookup_rec_assign_same.
  rewrite (group_of_nil R rf (unit_key r) HR Hnm).
  rewrite rec_drop_rec_assign_same; split; [reflexivity|].
  intros Hk; apply rec_drop_nokey, Hk.
Qed.

Definition sample_merged : frame :=
  match merge_frames column_mappings sample_response sample_admin with
  | Ok a => a
  | Err _ => mkFrame [] []
  end.

Lemma sample_merge_ok :
  merge_frames column_mappings sample_response sample_admin = Ok sample_merged.
Proof. vm_compute; reflexivity. Qed.

Lemma C3_merge_preserves_rows_witness :
  merge_frames column_mappings sample_response sample_admin = Ok sample_merged /\
  nth_error (rows (update_df sample_merged)) 1 = Some (nth 1 (rows sample_admin) []).
Proof.
  split; [exact sample_merge_ok|].
  destruct (C3_merge_preserves_rows column_mappings sample_response sample_admin
              sample_merged sample_merge_ok) as [_ [_ K]].
  destruct (K 1 (nth 1 (rows sample_admin) []) eq_refl) as [o [Ho [_ [_ [_ Hu]]]]].
  rewrite Ho; f_equal.
  apply Hu; [vm_compute; intros [E|[E|[]]]; discriminate | reflexivity].
Defined.

(** C3 (the defect): a column named [KEY] in the admin sheet is taken
    for the join key, overwritten, and dropped from the write, which then
    covers one column fewer than the sheet: with the header
    [동 | KEY | 호수], the unmatched row [(102, x, 101)] is written as
    [(102, 101)] to [A4:B4], so [101] lands under [KEY] and the [호수]
    column is not written. *)
Lemma C3_KEY_column_shifts_write :
  merge_into_admin_sheet (sample_gateway 0) sample_response
    (mkFrame [col_dong; col_KEY; col_hosu]
       [[(col_dong, u "102"); (col_KEY, u "x"); (col_hosu, u "101")]]) [] =
  (Ok tt, [CGetAllValues; CUpdate (mkRange 4 66%N 4) [[u "102"; u "101"]]]).
Proof. vm_compute; reflexivity. Qed.

(** ** Matched rows: the [uuid] and [대표자 이름] columns *)

Lemma has_key_In r c : has_key r c = true <-> In c (map fst r).
Proof.
  unfold has_key; rewrite existsb_exists; split.
  - intros [[k v] [Hin Hk]]; apply streqb_true in Hk; simpl in Hk; subst.
    apply (in_map fst) in Hin; exact Hin.
  - intros Hin; apply in_map_iff in Hin as [[k v] [Hk Hin]]; simpl in Hk; subst.
    exists (c, v); split; [exact Hin | apply streqb_refl].
Qed.

Lemma uuid_not_mapped : ~ In col_uuid (map snd column_mappings).
Proof. apply mem_notIn; reflexivity. Qed.

Lemma rep_name_not_mapped : ~ In col_rep_name (map snd column_mappings).
Proof. apply mem_notIn; reflexivity. Qed.

Lemma KEY_not_mapped : ~ In col_KEY (map snd column_mappings).
Proof. apply mem_notIn; reflexivity. Qed.

Lemma uuid_ne_rep_name : col_uuid <> col_rep_name.
Proof. apply streqb_false; reflexivity. Qed.

Lemma uuid_ne_KEY : col_uuid <> col_KEY.
Proof. apply streqb_false; reflexivity. Qed.

Lemma rep_name_ne_KEY : col_rep_name <> col_KEY.
Proof. apply streqb_false; reflexivity. Qed.

(** In a matched row, [uuid] and [대표자 이름] are recomputed from the
    response group alone. *)
Lemma merged_row_overwrites (R A A1 Rk : frame) (Hwf : frame_wf A)
  (H : merge_frames column_mappings R A = Ok A1) (HR : create_key R = Ok Rk)
  i r (Hi : nth_error (rows A) i = Some r) (Hg : group_of Rk (unit_key r) <> []) :
  exists out, nth_error (rows (update_df A1)) i = Some out /\
   (In col_uuid (cols A) ->
    lookup out col_uuid = generate_uuid_from_df (group_of Rk (unit_key r))) /\
   (In col_rep_name (cols A) ->
    lookup out col_rep_name = extract_representatives (map snd (group_of Rk (unit_key r)))).
Proof.
  destruct (merge_frames_rows column_mappings R A A1 H) as [rf [af [HR' [HA [_ Hrows]]]]].
  rewrite HR in HR'; inversion HR'; subst rf; clear HR'.
  rewrite Hrows, nth_error_map, Hi; simpl.
  eexists; split; [reflexivity|].
  assert (Hkeys : map fst r = cols A).
  { unfold frame_wf in Hwf; rewrite Forall_forall in Hwf; apply Hwf, (nth_error_In _ _ Hi). }
  rewrite merge_row_updates, lookup_rec_assign_same.
  destruct (group_of Rk (unit_key r)) as [|p ps] eqn:Eg; [congruence|].
  split; intros Hc.
  - rewrite lookup_rec_drop_other by exact uuid_ne_KEY.
    assert (Hm : mem col_uuid (cols af) = true)
      by (apply mem_In, (create_key_cols A af col_uuid HA); left; exact Hc).
    unfold row_updates; rewrite Hm.
    apply (lookup_apply_all_const []).
    + rewrite has_key_rec_assign_other by exact uuid_ne_KEY.
      apply has_key_In; rewrite Hkeys; exact Hc.
    + rewrite map_app; intros Hin; apply in_app_or in Hin as [Hin|Hin].
      * destruct (mem col_rep_name (cols af)); simpl in Hin;
          [destruct Hin as [Hin|[]]; exact (uuid_ne_rep_name (eq_sym Hin)) | exact Hin].
      * apply mapping_updates_cols in Hin as [Hin _]; exact (uuid_not_mapped Hin).
  - rewrite lookup_rec_drop_other by exact rep_name_ne_KEY.
    assert (Hm : mem col_rep_name (cols af) = true)
      by (apply mem_In, (create_key_cols A af col_rep_name HA); left; exact Hc).
    unfold row_updates; rewrite Hm.
    apply lookup_apply_all_const.
    + rewrite has_key_rec_assign_other by exact rep_name_ne_KEY.
      apply has_key_In; rewrite Hkeys; exact Hc.
    + intros Hin; apply mapping_updates_cols in Hin as [Hin _]; exact (rep_name_not_mapped Hin).
Qed.

Lemma representatives_loop_nil (rs : list record) :
  (forall r, In r rs -> is_representative (lookup r col_rep_flag) = false \/
                        strip (lookup r col_name) = []) ->
  representatives_loop rs = [].
Proof.
  induction rs as [|r rs IH]; intros Hrs; simpl; [reflexivity|].
  assert (IH' : representatives_loop rs = []) by (apply IH; intros x Hx; apply Hrs; right; exact Hx).
  destruct (Hrs r (or_introl eq_refl)) as [E|E]; rewrite E; simpl; [exact IH'|].
  destruct (is_representative _); exact IH'.
Qed.

(** ** C9: [uuid] and [대표자 이름] are overwritten *)

(** C9: for every admin row whose key matches a response group, the
    [uuid] and [대표자 이름] columns, when the admin sheet has them, are
    replaced by values computed from the group alone (the prior cell is
    discarded), and [대표자 이름] becomes the empty string when no
    response of the group has both a truthy flag and a non-blank name. *)
Theorem C9_uuid_and_representative_overwritten (R A A1 Rk : frame) (Hwf : frame_wf A)
  (H : merge_frames column_mappings R A = Ok A1) (HR : create_key R = Ok Rk)
  i r (Hi : nth_error (rows A) i = Some r) (Hg : group_of Rk (unit_key r) <> []) :
  exists out, nth_error (rows (update_df A1)) i = Some out /\
   (In col_uuid (cols A) ->
    lookup out col_uuid = generate_uuid_from_df (group_of Rk (unit_key r))) /\
   (In col_rep_name (cols A) ->
    lookup out col_rep_name = extract_representatives (map snd (group_of Rk (unit_key r)))) /\
   ((forall p, In p (group_of Rk (unit_key r)) ->
      is_representative (lookup (snd p) col_rep_flag) = false \/
      strip (lookup (snd p) col_name) = []) ->
    extract_representatives (map snd (group_of Rk (unit_key r))) = []).
Proof.
  destruct (merged_row_overwrites R A A1 Rk Hwf H HR i r Hi Hg) as [out [H1 [H2 H3]]].
  exists out; split; [exact H1|]; split; [exact H2|]; split; [exact H3|].
  intros Hall; unfold extract_representatives; rewrite representatives_loop_nil; [reflexivity|].
  intros x Hx; apply in_map_iff in Hx as [p [<- Hp]]; apply Hall, Hp.
Qed.

Lemma extract_representatives_eq (rs : list record) :
  extract_representatives rs =
  join_nl (filter nonempty
             (map (fun r => strip (lookup r col_name))
                  (filter (fun r => is_representative (lookup r col_rep_flag)) rs))).
Proof.
  unfold extract_representatives; rewrite representatives_loop_eq.
  destruct (filter nonempty _); reflexivity.
Qed.

(** C6 (amended): when the admin sheet has a [대표자 이름] column, every
    matched admin row gets there the newline-joined, trimmed, non-blank
    names of exactly those responses of its group whose
    [세대 대표자 여부], trimmed and lowercased, is one of
    [예, yes, y, o, 대표, true, 1] (every other flag, blank included, is
    false); flags ["예"], [""], ["아니오"] with names ["A"], ["B"], ["C"]
    give ["A"]. *)
Theorem C6_representative_column (R A A1 Rk : frame) (Hwf : frame_wf A)
  (H : merge_frames column_mappings R A = Ok A1) (HR : create_key R = Ok Rk)
  i r (Hi : nth_error (rows A) i = Some r) (Hg : group_of Rk (unit_key r) <> [])
  (Hc : In col_rep_name (cols A)) :
  (exists out, nth_error (rows (update_df A1)) i = Some out /\
     lookup out col_rep_name =
     join_nl (filter nonempty
                (map (fun x => strip (lookup x col_name))
                     (filter (fun x => is_representative (lookup x col_rep_flag))
                             (map snd (group_of Rk (unit_key r))))))) /\
  (forall flag, is_representative flag = true <-> In (lower (strip flag)) truthy_tokens) /\
  extract_representatives
    [rep_record (u "예") (u "A"); rep_record [] (u "B"); rep_record (u "아니오") (u "C")]
  = u "A".
Proof.
  split; [|split].
  - destruct (merged_row_overwrites R A A1 Rk Hwf H HR i r Hi Hg) as [out [H1 [_ H3]]].
    exists out; split; [exact H1|]; rewrite H3 by exact Hc; apply extract_representatives_eq.
  - intros flag; apply mem_In.
  - reflexivity.
Qed.

Definition sample_response_keyed : frame :=
  match create_key sample_response with
  | Ok a => a
  | Err _ => mkFrame [] []
  end.

Lemma sample_response_key_ok : create_key sample_response = Ok sample_response_keyed.
Proof. vm_compute; reflexivity. Qed.

Lemma sample_admin_wf : frame_wf sample_admin.
Proof. unfold frame_wf; simpl; repeat constructor. Qed.

Lemma C6_representative_column_witness :
  exists out, nth_error (rows (update_df sample_merged)) 0 = Some out /\
  lookup out col_rep_name = u "홍길동".
Proof.
  destruct (C6_representative_column sample_response sample_admin sample_merged
              sample_response_keyed sample_admin_wf sample_merge_ok sample_response_key_ok
              0 (nth 0 (rows sample_admin) []) eq_refl
              ltac:(vm_compute; discriminate) ltac:(apply mem_In; reflexivity))
    as [[out [H1 H2]] _].
  exists out; split; [exact H1|]; rewrite H2; vm_compute; reflexivity.
Defined.

Lemma C9_uuid_and_representative_overwritten_witness :
  exists out, nth_error (rows (update_df sample_merged)) 0 = Some out /\
  lookup out col_uuid = u "2" ++ nl :: u "3" /\ lookup out col_rep_name = u "홍길동".
Proof.
  destruct (C9_uuid_and_representative_overwritten sample_response sample_admin sample_merged
              sample_response_keyed sample_admin_wf sample_merge_ok sample_response_key_ok
              0 (nth 0 (rows sample_admin) []) eq_refl ltac:(vm_compute; discriminate))
    as [out [H1 [H2 [H3 _]]]].
  exists out; split; [exact H1|].
  rewrite H2, H3 by (apply mem_In; reflexivity); split; vm_compute; reflexivity.
Defined.

(** ** Rerunning the merge *)

Fixpoint nodupb (l : list pystr) : bool :=
  match l with
  | [] => true
  | x :: l1 => negb (mem x l1) && nodupb l1
  end.

Lemma nodupb_NoDup (l : list pystr) : nodupb l = true -> NoDup l.
Proof.
  induction l as [|x l IH]; simpl; intros H; [constructor|].
  apply andb_true_iff in H as [H1 H2]; apply negb_true_iff, mem_notIn in H1.
  constructor; [exact H1 | apply IH, H2].
Qed.

Lemma mapping_targets_nodup : NoDup (map snd column_mappings).
Proof. apply nodupb_NoDup; reflexivity. Qed.

Lemma KEY_not_mapped_source : ~ In col_KEY (map fst column_mappings).
Proof. apply mem_notIn; reflexivity. Qed.

Lemma filter_idem {X : Type} (f : X -> bool) (l : list X) : filter f (filter f l) = filter f l.
Proof.
  induction l as [|x l IH]; simpl; [reflexivity|].
  destruct (f x) eqn:E; simpl; rewrite ?E, IH; reflexivity.
Qed.

Lemma mem_drop_KEY_app (l : list pystr) c :
  mem col_KEY l = true ->
  mem c (filter (fun d => negb (streqb d col_KEY)) l ++ [col_KEY]) = mem c l.
Proof.
  intros HK; destruct (mem c l) eqn:E.
  - apply mem_In, in_or_app.
    destruct (list_eq_dec N.eq_dec c col_KEY) as [->|Hne]; [right; left; reflexivity|].
    left; apply filter_In; split; [apply mem_In, E | apply negb_true_iff, streqb_false, Hne].
  - apply mem_notIn; apply mem_notIn in E; intros H; apply in_app_or in H as [H|[H|[]]].
    + apply filter_In in H as [H _]; exact (E H).
    + subst c; apply E, mem_In, HK.
Qed.

Lemma row_updates_mem_ext mapping rf a b g :
  (forall c, mem c a = mem c b) -> row_updates mapping rf a g = row_updates mapping rf b g.
Proof.
  intros Hab; unfold row_updates; rewrite !Hab; f_equal; f_equal.
  apply flat_map_ext; intros [rc ac]; unfold mapping_update; rewrite Hab; reflexivity.
Qed.

Lemma merge_row_mem_ext mapping rf a b r :
  (forall c, mem c a = mem c b) -> merge_row mapping rf a r = merge_row mapping rf b r.
Proof.
  intros Hab; rewrite !merge_row_updates.
  destruct (group_of rf (lookup r col_KEY)); [reflexivity|].
  rewrite (row_updates_mem_ext _ _ a b) by exact Hab; reflexivity.
Qed.

Lemma row_updates_nodup rf admin_cols g :
  NoDup (map fst (row_updates column_mappings rf admin_cols g)).
Proof.
  unfold row_updates; rewrite !map_app.
  pose proof (mapping_updates_nodup column_mappings rf admin_cols g mapping_targets_nodup) as Hf.
  assert (Hflat : forall c, In c (map fst (flat_map (mapping_update rf admin_cols g) column_mappings)) ->
                       In c (map snd column_mappings))
    by (intros c Hc; apply mapping_updates_cols in Hc; tauto).
  apply NoDup_app; [| apply NoDup_app | ].
  - destruct (mem col_uuid admin_cols); simpl; repeat constructor; intros [].
  - destruct (mem col_rep_name admin_cols); simpl; repeat constructor; intros [].
  - exact Hf.
  - intros c Hc Hc'; destruct (mem col_rep_name admin_cols); simpl in Hc; [|destruct Hc].
    destruct Hc as [<-|[]]; exact (rep_name_not_mapped (Hflat _ Hc')).
  - intros c Hc Hc'; destruct (mem col_uuid admin_cols); simpl in Hc; [|destruct Hc].
    destruct Hc as [<-|[]]; apply in_app_or in Hc' as [Hc'|Hc'].
    + destruct (mem col_rep_name admin_cols); simpl in Hc'; [|destruct Hc'].
      destruct Hc' as [Hc'|[]]; exact (uuid_ne_rep_name (eq_sym Hc')).
    + exact (uuid_not_mapped (Hflat _ Hc')).
Qed.

Lemma new_values_for_ok (g : group) rc :
  (forall p, In p g -> ~ In nl (strip (lookup (snd p) rc))) ->
  forall v, In v (new_values_for g rc) -> entry_ok v.
Proof.
  intros Hg v Hv; unfold new_values_for in Hv.
  apply filter_In in Hv as [Hv Hne]; apply in_map_iff in Hv as [p [<- Hp]].
  split; [destruct (strip _); discriminate | split; [apply strip_idem | apply Hg, Hp]].
Qed.

Lemma filter_strip_entries (l : list pystr) :
  (forall v, In v l -> entry_ok v) -> filter nonempty (map strip l) = l.
Proof.
  induction l as [|v l IH]; intros H; simpl; [reflexivity|].
  destruct (H v (or_introl eq_refl)) as [Hne [Hs _]].
  rewrite Hs, IH by (intros w Hw; apply H; right; exact Hw).
  destruct v; [congruence | reflexivity].
Qed.

Lemma mapping_updates_idem mapping rf admin_cols g :
  (forall p, In p g -> forall m, In m mapping -> ~ In nl (strip (lookup (snd p) (fst m)))) ->
  Forall upd_idem (flat_map (mapping_update rf admin_cols g) mapping).
Proof.
  induction mapping as [|[rc ac] mapping IH]; intros Hg; cbn [flat_map]; [constructor|].
  apply Forall_app; split; [| apply IH; intros p Hp m Hm; apply (Hg p Hp m); right; exact Hm].
  unfold mapping_update.
  destruct (mem ac protected_columns); [constructor|].
  destruct (mem rc (cols rf) && mem ac admin_cols); [|constructor].
  pose proof (new_values_for_ok g rc (fun p Hp => Hg p Hp (rc, ac) (or_introl eq_refl))) as Hok.
  destruct (new_values_for g rc) as [|v vs] eqn:Enew; [constructor|].
  constructor; [|constructor].
  intros old; simpl; apply merge_multiline_data_idem.
  - intros w Hw; destruct (Hok w Hw) as [_ [-> H]]; exact H.
  - rewrite filter_strip_entries by exact Hok; discriminate.
Qed.

Lemma row_updates_idem rf admin_cols g :
  (forall p, In p g -> forall m, In m column_mappings -> ~ In nl (strip (lookup (snd p) (fst m)))) ->
  Forall upd_idem (row_updates column_mappings rf admin_cols g).
Proof.
  intros Hg; unfold row_updates; apply Forall_app; split; [|apply Forall_app; split].
  - destruct (mem col_uuid admin_cols); repeat constructor.
  - destruct (mem col_rep_name admin_cols); repeat constructor.
  - apply mapping_updates_idem, Hg.
Qed.

Lemma row_updates_no_KEY mapping rf admin_cols g :
  ~ In col_KEY (map snd mapping) -> ~ In col_KEY (map fst (row_updates mapping rf admin_cols g)).
Proof.
  intros HK H; apply row_updates_cols in H as [H|[H|[H _]]].
  - exact (uuid_ne_KEY (eq_sym H)).
  - exact (rep_name_ne_KEY (eq_sym H)).
  - exact (HK H).
Qed.

Lemma protected_ne_KEY c : In c protected_columns -> c <> col_KEY.
Proof. intros H ->; exact (KEY_not_protected H). Qed.

Lemma dong_protected : In col_dong protected_columns.
Proof. apply mem_In; reflexivity. Qed.

Lemma hosu_protected : In col_hosu protected_columns.
Proof. apply mem_In; reflexivity. Qed.

(** One admin row, merged once and then merged again *)
Lemma merge_row_rerun (rf : frame) (acols1 acols2 : list pystr) (r : record) :
  (forall c, mem c acols2 = mem c acols1) ->
  (forall p, In p (group_of rf (unit_key r)) -> forall m, In m column_mappings ->
     ~ In nl (strip (lookup (snd p) (fst m)))) ->
  let o := rec_drop (merge_row column_mappings rf acols1 (rec_assign r col_KEY (unit_key r))) col_KEY in
  rec_drop (merge_row column_mappings rf acols2 (rec_assign o col_KEY (unit_key o))) col_KEY = o.
Proof.
  intros Hmem Hg.
  set (k := unit_key r) in *.
  set (ra := rec_assign r col_KEY k).
  assert (Hm1 : merge_row column_mappings rf acols1 ra =
                match group_of rf k with
                | [] => ra
                | g => apply_all (row_updates column_mappings rf acols1 g) ra
                end) by (rewrite merge_row_updates; subst ra; rewrite lookup_rec_assign_same; reflexivity).
  cbv zeta.
  set (o := rec_drop (merge_row column_mappings rf acols1 ra) col_KEY).
  assert (Hko : has_key o col_KEY = false) by apply has_key_rec_drop_same.
  assert (Huk : unit_key o = k).
  { unfold unit_key, o, k, ra.
    rewrite !lookup_rec_drop_other by (apply protected_ne_KEY; (exact dong_protected || exact hosu_protected)).
    rewrite !merge_row_protected by (exact dong_protected || exact hosu_protected).
    rewrite !lookup_rec_assign_other by (apply protected_ne_KEY; (exact dong_protected || exact hosu_protected)).
    reflexivity. }
  rewrite Huk; unfold rec_assign; rewrite Hko.
  rewrite (merge_row_mem_ext _ _ acols2 acols1) by exact Hmem.
  rewrite merge_row_updates, lookup_app_single_nokey by exact Hko.
  destruct (group_of rf k) as [|p ps] eqn:Eg.
  - rewrite rec_drop_app_single; apply rec_drop_nokey, Hko.
  - set (U := row_updates column_mappings rf acols1 (p :: ps)) in *.
    assert (HUK : ~ In col_KEY (map fst U)) by (apply row_updates_no_KEY, KEY_not_mapped).
    rewrite rec_drop_apply_all by exact HUK.
    rewrite rec_drop_app_single, (rec_drop_nokey o col_KEY Hko).
    unfold o; rewrite Hm1.
    rewrite rec_drop_apply_all by exact HUK.
    apply apply_all_idem; [apply row_updates_nodup | apply row_updates_idem].
    exact Hg.
Qed.

(** ** C5: rerunning the merge *)

Definition multiline_response : frame :=
  mkFrame [col_dong; col_hosu; col_name]
    [[(col_dong, u "101"); (col_hosu, u "203"); (col_name, u "X" ++ nl :: u "Y")]].

Definition blank_admin : frame :=
  mkFrame [col_dong; col_hosu; col_name]
    [[(col_dong, u "101"); (col_hosu, u "203"); (col_name, [])]].

(** C5 (as stated, refuted): a response value with an inner newline is
    one new value, but the rerun splits the merged cell into lines, so
    the value is appended again: ["X\nY"] becomes ["X\nY\nX\nY"]. *)
Lemma C5_inner_newline_grows :
  exists A1 A2,
    merge_frames column_mappings multiline_response blank_admin = Ok A1 /\
    merge_frames column_mappings multiline_response (update_df A1) = Ok A2 /\
    map (fun r => lookup r col_name) (rows (update_df A1)) = [u "X" ++ nl :: u "Y"] /\
    map (fun r => lookup r col_name) (rows (update_df A2)) =
      [u "X" ++ nl :: u "Y" ++ nl :: u "X" ++ nl :: u "Y"] /\
    update_df A2 <> update_df A1.
Proof.
  do 2 eexists; split; [vm_compute; reflexivity|]; split; [vm_compute; reflexivity|].
  split; [vm_compute; reflexivity|]; split; [vm_compute; reflexivity|].
  vm_compute; discriminate.
Qed.

(** C5 (amended): when no response value of a mapped column contains a
    newline once trimmed, merging the same responses into the merged
    admin output gives that output again. *)
Theorem C5_rerun_idempotent (R A A1 : frame)
  (H : merge_frames column_mappings R A = Ok A1)
  (Hnl : forall r, In r (rows R) -> forall m, In m column_mappings ->
         ~ In nl (strip (lookup r (fst m)))) :
  exists A2, merge_frames column_mappings R (update_df A1) = Ok A2 /\
             update_df A2 = update_df A1.
Proof.
  destruct (merge_frames_rows column_mappings R A A1 H) as [rf [af [HR [HA [Hcols Hrows]]]]].
  pose proof (create_key_ok _ _ HA) as [Hd [Hh _]].
  pose proof (create_key_ok _ _ HR) as [_ [_ [_ HrR]]].
  assert (HKaf : mem col_KEY (cols af) = true)
    by (apply mem_In, (create_key_cols A af col_KEY HA); right; reflexivity).
  assert (Hin_u : forall c, In c (cols A) -> c <> col_KEY -> mem c (cols (update_df A1)) = true).
  { intros c Hc Hne; rewrite Hcols; apply mem_In, filter_In; split.
    - apply (create_key_cols A af c HA); left; exact Hc.
    - apply negb_true_iff, streqb_false, Hne. }
  assert (E1 := Hin_u col_dong Hd (protected_ne_KEY _ dong_protected)).
  assert (E2 := Hin_u col_hosu Hh (protected_ne_KEY _ hosu_protected)).
  assert (E3 : mem col_KEY (cols (update_df A1)) = false).
  { rewrite Hcols; apply mem_notIn; intros Hin; apply filter_In in Hin as [_ Hin].
    rewrite streqb_refl in Hin; discriminate. }
  assert (HkeyU : create_key (update_df A1) =
                  Ok (mkFrame (cols (update_df A1) ++ [col_KEY])
                              (map (fun o => rec_assign o col_KEY (unit_key o)) (rows (update_df A1)))))
    by (unfold create_key; rewrite E1, E2, E3; reflexivity).
  eexists; split; [unfold merge_frames; rewrite HR, HkeyU; reflexivity|].
  transitivity (mkFrame (cols (update_df A1)) (rows (update_df A1)));
    [|destruct (update_df A1); reflexivity].
  unfold update_df at 1; cbn [cols rows]; f_equal.
  - rewrite filter_app; cbn [filter]; rewrite streqb_refl; cbn [negb]; rewrite app_nil_r.
    rewrite Hcols; apply filter_idem.
  - rewrite !map_map, Hrows, map_map; apply map_ext_in; intros r Hr.
    apply merge_row_rerun.
    + intros c; rewrite Hcols; apply mem_drop_KEY_app, HKaf.
    + intros p Hp m Hm.
      apply group_of_In in Hp as [Hp _]; rewrite HrR in Hp.
      apply in_map_iff in Hp as [r' [Er' Hr']]; rewrite <- Er'.
      rewrite lookup_rec_assign_other.
      * apply Hnl; assumption.
      * intros E; apply KEY_not_mapped_source; rewrite <- E; apply in_map, Hm.
Qed.

Lemma C5_rerun_idempotent_witness :
  exists A2, merge_frames column_mappings sample_response (update_df sample_merged) = Ok A2 /\
             update_df A2 = update_df sample_merged.
Proof.
  apply (C5_rerun_idempotent sample_response sample_admin sample_merged sample_merge_ok).
  intros r Hr m Hm; simpl in Hr.
  destruct Hr as [<-|[<-|[]]]; simpl in Hm;
    repeat (destruct Hm as [<-|Hm]; [vm_compute; intros Hc; repeat (destruct Hc as [Hc|Hc]; [discriminate|]); exact Hc|]);
    destruct Hm.
Defined.

(** ** C4: an empty response set *)

(** C4: when the response frame is empty the merge returns at once: no
    gateway call is made (so nothing is written and the admin sheet keeps
    its contents) and no error is raised. *)
Theorem C4_empty_response_noop (gw : gateway) (R A : frame) (t : list call)
  (H : frame_empty R = true) :
  merge_into_admin_sheet gw R A t = (Ok tt, t).
Proof. unfold merge_into_admin_sheet; rewrite H; reflexivity. Qed.

Lemma C4_empty_response_noop_witness :
  merge_into_admin_sheet (sample_gateway 0) (mkFrame [col_dong; col_hosu] []) sample_admin [] = (Ok tt, []).
Proof. apply C4_empty_response_noop; reflexivity. Defined.

(** ** C7: the backup copy is a precondition *)

Definition is_get_call (c : call) : bool :=
  match c with CGetWorksheetById _ _ => true | _ => false end.

(** The calls of [_update_admin_sheet] *)
Definition is_writer_call (c : call) : bool :=
  match c with CGetAllValues | CUpdate _ _ => true | _ => false end.


Lemma retry_loop_fail (gw : gateway) (sid retries delay n a : nat)
  (H : forall k, a <= k < a + n -> gw_get_by_id gw k <> Found) :
  exists tr, (forall t, retry_loop gw sid retries delay a n t = (Err (RuntimeError not_found_msg), t ++ tr)) /\
             (forall c, In c tr -> is_writer_call c = false) /\
             filter is_get_call tr = map (CGetWorksheetById sid) (seq a n).
Proof.
  revert a H; induction n as [|n IH]; intros a H.
  - exists []; split; [intros t; rewrite app_nil_r; reflexivity|]; split; [intros c []|reflexivity].
  - destruct (IH (S a)) as [tr [E [W F]]]; [intros k Hk; apply H; lia|].
    assert (Ha : gw_get_by_id gw a <> Found) by (apply H; lia).
    destruct (gw_get_by_id gw a) eqn:Eg; [congruence| |].
    + exists (CGetWorksheetById sid a :: tr); split; [|split].
      * intros t; cbn [retry_loop]; unfold bind, emit; rewrite Eg, E, <- app_assoc; reflexivity.
      * intros c [<-|Hc]; [reflexivity|auto].
      * cbn [filter is_get_call seq map]; rewrite F; reflexivity.
    + set (s := if Nat.ltb a (retries - 1) then [CSleep delay] else []).
      exists (CGetWorksheetById sid a :: s ++ tr); split; [|split].
      * intros t; cbn [retry_loop]; unfold bind, emit, ret; rewrite Eg.
        subst s; destruct (Nat.ltb a (retries - 1)); rewrite E, <- !app_assoc; reflexivity.
      * intros c [<-|Hc]; [reflexivity|]; apply in_app_or in Hc as [Hc|Hc]; [|auto].
        subst s; destruct (Nat.ltb a (retries - 1)); [destruct Hc as [<-|[]]; reflexivity | destruct Hc].
      * cbn [filter is_get_call seq map]; rewrite filter_app, F.
        subst s; destruct (Nat.ltb a (retries - 1)); reflexivity.
Qed.

Ltac close_early :=
  split; [eexists; reflexivity|]; split;
  [ intros c Hc; simpl in Hc; repeat (destruct Hc as [<-|Hc]; [reflexivity|]); destruct Hc
  | intros [c [Hc Hg]]; simpl in Hc; repeat (destruct Hc as [<-|Hc]; [discriminate|]); destruct Hc ].

(** C7: if [get_worksheet_by_id] does not return the copied sheet at any
    of the 5 attempts, [process_sheets] ends with an error, and no call of
    the sheet writer ([get_all_values], [update]) is ever made.  When the
    backup step is reached, the error is the [RuntimeError] of the retry
    helper, raised after exactly the 5 attempts 0..4. *)
Theorem C7_backup_failure_aborts (gw : gateway)
  (Hfail : forall k, k < 5 -> gw_get_by_id gw k <> Found) :
  (exists e, fst (process_sheets gw []) = Err e) /\
  (forall c, In c (snd (process_sheets gw [])) -> is_writer_call c = false) /\
  ((exists c, In c (snd (process_sheets gw [])) /\ is_get_call c = true) ->
   fst (process_sheets gw []) = Err (RuntimeError not_found_msg) /\
   exists sid, filter is_get_call (snd (process_sheets gw [])) =
               map (CGetWorksheetById sid) (seq 0 5)).
Proof.
  unfold process_sheets, read_sheets, backup_admin_sheet, open_by_key, read_records,
    get_worksheet_by_id_with_retry, bind, emit, ret, raise.
  destruct (gw_open gw response_sheet_id); [|close_early].
  destruct (gw_records gw response_sheet_name); [|close_early].
  destruct (gw_open gw admin_sheet_id); [|close_early].
  destruct (gw_records gw admin_sheet_name); [|close_early].
  destruct (gw_copy_to gw) as [sid|]; [|close_early].
  destruct (retry_loop_fail gw sid 5 1 5 0) as [tr [E [W F]]]; [intros k Hk; apply Hfail; lia|].
  rewrite E; cbn [fst snd].
  split; [eexists; reflexivity|]; split.
  - intros c Hc; apply in_app_or in Hc as [Hc|Hc]; [|auto].
    simpl in Hc; repeat (destruct Hc as [<-|Hc]; [reflexivity|]); destruct Hc.
  - intros _; split; [reflexivity|]; exists sid.
    rewrite filter_app, F; reflexivity.
Qed.

Lemma C7_backup_failure_aborts_witness :
  (forall k, k < 5 -> gw_get_by_id (sample_gateway 5) k <> Found) /\
  fst (process_sheets (sample_gateway 5) []) = Err (RuntimeError not_found_msg).
Proof.
  assert (H : forall k, k < 5 -> gw_get_by_id (sample_gateway 5) k <> Found).
  { intros k Hk; do 5 (destruct k as [|k]; [simpl; discriminate|]); lia. }
  split; [exact H|].
  apply (C7_backup_failure_aborts (sample_gateway 5) H).
  exists (CGetWorksheetById 7 0); split; [vm_compute; tauto | reflexivity].
Defined.

(** ** C8: the header search *)

Lemma prefixb_iff (p s : pystr) : prefixb p s = true <-> exists r, s = p ++ r.
Proof.
  revert s; induction p as [|a p IH]; intros s; simpl.
  - split; [intros _; exists s; reflexivity | reflexivity].
  - destruct s as [|b s].
    + split; [discriminate | intros [r Hr]; discriminate].
    + rewrite andb_true_iff, N.eqb_eq, IH; split.
      * intros [-> [r ->]]; exists r; reflexivity.
      * intros [r Hr]; injection Hr as -> Hr; split; [reflexivity | exists r; exact Hr].
Qed.

Lemma contains_iff (needle hay : pystr) :
  contains needle hay = true <-> exists pre post, hay = pre ++ needle ++ post.
Proof.
  induction hay as [|c hay IH]; simpl.
  - rewrite prefixb_iff; split.
    + intros [r Hr]; exists [], r; exact Hr.
    + intros [pre [post Hp]]; exists post.
      destruct pre; [exact Hp | discriminate].
  - rewrite orb_true_iff, prefixb_iff, IH; split.
    + intros [[r Hr]|[pre [post Hp]]].
      * exists [], r; rewrite Hr; reflexivity.
      * exists (c :: pre), post; rewrite Hp; reflexivity.
    + intros [[|d pre] [post Hp]].
      * left; exists post; exact Hp.
      * right; injection Hp as -> Hp; exists pre, post; exact Hp.
Qed.

Lemma header_row_test_iff (row : list pystr) :
  header_row_test row = true <->
  (exists cell, In cell row /\ contains col_dong cell = true) /\
  (exists cell, In cell row /\ contains col_hosu cell = true).
Proof.
  unfold header_row_test; rewrite existsb_exists; split.
  - intros [cell [Hin Hc]]; apply andb_true_iff in Hc as [H1 H2].
    apply existsb_exists in H2; split; [exists cell; split; assumption | exact H2].
  - intros [[cell [Hin H1]] H2]; exists cell; split; [exact Hin|].
    apply andb_true_iff; split; [exact H1 | apply existsb_exists, H2].
Qed.

Lemma find_header_from_first (l : list (list pystr)) (i k : nat) (row : list pystr) :
  nth_error l k = Some row -> header_row_test row = true ->
  (forall j r, j < k -> nth_error l j = Some r -> header_row_test r = false) ->
  find_header_from i l = Some (i + k + 1).
Proof.
  revert i k; induction l as [|r0 l IH]; intros i k Hk Ht Hbefore.
  - destruct k; discriminate.
  - destruct k as [|k]; simpl in Hk |- *.
    + injection Hk as ->; rewrite Ht; f_equal; lia.
    + rewrite (Hbefore 0 r0) by (reflexivity || lia).
      rewrite (IH (S i) k Hk Ht); [f_equal; lia|].
      intros j r Hj Hr; apply (Hbefore (S j)); [lia | exact Hr].
Qed.

Lemma find_header_from_none (l : list (list pystr)) (i : nat) :
  (forall row, In row l -> header_row_test row = false) -> find_header_from i l = None.
Proof.
  revert i; induction l as [|r0 l IH]; intros i H; simpl; [reflexivity|].
  rewrite H by (left; reflexivity); apply IH; intros row Hr; apply H; right; exact Hr.
Qed.

Definition data_row_first : list (list pystr) :=
  [[u "101동"; u "1203호수"]; [col_dong; col_hosu]].

(** C8 (as stated, refuted): the test is [in] on strings, a substring
    test on each cell, so a data row whose cells merely contain 동 and
    호수 is taken as the header: here the header labels are on row 2, but
    row 1 is chosen and the data would be written from row 2, over the
    real header. *)
Lemma C8_substring_header_match :
  find_header_row data_row_first = 1 /\
  start_row (update_range (find_header_row data_row_first) 2 1) = 2 /\
  nth_error data_row_first 1 = Some [col_dong; col_hosu].
Proof. vm_compute; repeat split. Qed.

(** C8 (amended): the header row is the first row (1-based index i+1)
    that has a cell containing the substring 동 and a cell containing the
    substring 호수; if no row has both, the header row is 3; the data range
    always starts on the row right after the header; the search is total. *)
Theorem C8_header_search (all_data : list (list pystr)) :
  (forall row, header_row_test row = true <->
     (exists cell pre post, In cell row /\ cell = pre ++ col_dong ++ post) /\
     (exists cell pre post, In cell row /\ cell = pre ++ col_hosu ++ post)) /\
  (forall i row, nth_error all_data i = Some row -> header_row_test row = true ->
     (forall j r, j < i -> nth_error all_data j = Some r -> header_row_test r = false) ->
     find_header_row all_data = i + 1) /\
  ((forall row, In row all_data -> header_row_test row = false) ->
     find_header_row all_data = 3) /\
  (forall ncols nrows,
     start_row (update_range (find_header_row all_data) ncols nrows) = find_header_row all_data + 1).
Proof.
  split; [|split; [|split]].
  - intros row; rewrite header_row_test_iff; split.
    + intros [[c1 [H1 E1]] [c2 [H2 E2]]].
      apply contains_iff in E1 as [p1 [q1 E1]]; apply contains_iff in E2 as [p2 [q2 E2]].
      split; [exists c1, p1, q1 | exists c2, p2, q2]; split; assumption.
    + intros [[c1 [p1 [q1 [H1 E1]]]] [c2 [p2 [q2 [H2 E2]]]]].
      split; [exists c1 | exists c2]; (split; [assumption|]); apply contains_iff; eauto.
  - intros i row Hi Ht Hb; unfold find_header_row.
    rewrite (find_header_from_first all_data 0 i row Hi Ht Hb); reflexivity.
  - intros H; unfold find_header_row; rewrite find_header_from_none by exact H; reflexivity.
  - intros ncols nrows; reflexivity.
Qed.

(** * Further properties of the code *)

(** ** [_merge_multiline_data] *)

(** Merging the same new values into an already merged cell changes
    nothing, as long as no new value holds a newline once trimmed. *)
Theorem merge_multiline_data_rerun (e : pystr) (nv : list pystr)
  (Hnv : forall v, In v nv -> ~ In nl (strip v)) :
  merge_multiline_data (merge_multiline_data e nv) nv = merge_multiline_data e nv.
Proof.
  destruct (merge_multiline_data_entries e nv Hnv) as [Heq [Hnd [Hok Hin]]].
  set (l := dedup_loop [] _) in *.
  rewrite (merge_multiline_data_eq (merge_multiline_data e nv)), Heq.
  assert (Hl : l = [] \/ l <> []) by (destruct l; [left | right]; congruence).
  destruct Hl as [El|Hl].
  - rewrite El; simpl. rewrite dedup_loop_all_seen; [reflexivity|].
    intros x Hx; assert (Hx' : In x l) by (apply Hin, in_or_app; right; exact Hx).
    rewrite El in Hx'; destruct Hx'.
  - rewrite lines_of_join by assumption.
    rewrite dedup_loop_prefix; [reflexivity | exact Hnd | intros x _ [] |].
    intros x Hx; left; apply Hin, in_or_app; right; exact Hx.
Qed.

Lemma split_join_nonempty (l : list pystr) :
  Forall entry_ok l -> forall x, In x (split_nl (join_nl l)) /\ x <> [] <-> In x l.
Proof.
  intros Hok x; destruct l as [|y l].
  - simpl; split; [intros [[<-|[]] H]; congruence | intros []].
  - rewrite split_join_nl by (discriminate || (eapply Forall_impl; [|exact Hok]; intros z [_ [_ H]]; exact H)).
    split; [tauto|]; intros Hx; split; [exact Hx|].
    exact (proj1 (proj1 (Forall_forall _ _) Hok x Hx)).
Qed.

(** The non-empty entries of the merged cell are exactly the trimmed,
    non-blank lines of the existing value and the trimmed, non-blank new
    values: nothing is lost and nothing is made up (when no new value
    holds a newline once trimmed). *)
Theorem merge_multiline_data_contents (e : pystr) (nv : list pystr)
  (Hnv : forall v, In v nv -> ~ In nl (strip v)) (x : pystr) :
  In x (split_nl (merge_multiline_data e nv)) /\ x <> [] <->
  In x (map strip (split_nl e)) /\ x <> [] \/ In x (map strip nv) /\ x <> [].
Proof.
  destruct (merge_multiline_data_entries e nv Hnv) as [Heq [_ [Hok Hin]]].
  rewrite Heq, split_join_nonempty by exact Hok.
  rewrite Hin, in_app_iff, !filter_In.
  destruct x; simpl; [split; [intros [[_ H]|[_ H]]; discriminate | intros [[_ H]|[_ H]]; congruence]|].
  split; intros [[H _]|[H _]]; ((left; split; [exact H|]) || (right; split; [exact H|])); (reflexivity || discriminate).
Qed.

Lemma merge_multiline_data_contents_witness :
  (forall v, In v [u " B "] -> ~ In nl (strip v)) /\
  (In (u "B") (split_nl (merge_multiline_data (u "A") [u " B "])) /\ u "B" <> []).
Proof.
  assert (H : forall v, In v [u " B "] -> ~ In nl (strip v))
    by (intros v [<-|[]]; vm_compute; intros [H|[]]; discriminate).
  split; [exact H|].
  apply (merge_multiline_data_contents (u "A") [u " B "] H).
  right; split; [left; reflexivity | discriminate].
Defined.

Lemma merge_multiline_data_rerun_witness :
  (forall v, In v [u "B"; u "C"] -> ~ In nl (strip v)) /\
  merge_multiline_data (merge_multiline_data (u "A") [u "B"; u "C"]) [u "B"; u "C"] =
  merge_multiline_data (u "A") [u "B"; u "C"].
Proof.
  assert (H : forall v, In v [u "B"; u "C"] -> ~ In nl (strip v))
    by (intros v [<-|[<-|[]]]; vm_compute; intros [H|[]]; discriminate).
  split; [exact H | apply (merge_multiline_data_rerun (u "A") [u "B"; u "C"] H)].
Defined.

(** ** [_generate_uuid_from_df] *)

Lemma dec_value_app (s : pystr) (d : N) :
  dec_value (s ++ [d]) = dec_value s * 10 + N.to_nat (d - 48).
Proof. unfold dec_value; rewrite fold_left_app; reflexivity. Qed.

Lemma digits_rev_ok (fuel n : nat) :
  n < fuel ->
  digits_rev fuel n <> [] /\ forallb is_ascii_digit (digits_rev fuel n) = true /\
  dec_value (rev (digits_rev fuel n)) = n.
Proof.
  revert n; induction fuel as [|f IH]; intros n Hn; [lia|].
  assert (Hd : forall m, m < 10 -> is_ascii_digit (48 + N.of_nat m) = true /\
                                  N.to_nat (48 + N.of_nat m - 48) = m).
  { intros m Hm; unfold is_ascii_digit; split; [apply andb_true_iff; split; apply N.leb_le; lia | lia]. }
  destruct (Hd (Nat.modulo n 10)) as [Hd1 Hd2]; [apply Nat.mod_upper_bound; lia|].
  cbn [digits_rev]; destruct (Nat.ltb_spec n 10).
  - split; [discriminate|]; split; [cbn [forallb]; rewrite Hd1; reflexivity|].
    change (rev [?x]) with ([] ++ [x]); rewrite dec_value_app, Hd2.
    rewrite Nat.mod_small by exact H; reflexivity.
  - destruct (IH (Nat.div n 10)) as [_ [IH2 IH3]].
    { assert (Nat.div n 10 < n) by (apply Nat.div_lt; lia); lia. }
    split; [discriminate|]; split; [cbn [forallb]; rewrite Hd1, IH2; reflexivity|].
    cbn [rev]; rewrite dec_value_app, IH3, Hd2.
    pose proof (Nat.div_mod n 10); lia.
Qed.

(** [str(n)] is a non-empty string of ASCII digits whose decimal value is [n]. *)
Lemma str_of_nat_ok (n : nat) :
  str_of_nat n <> [] /\ forallb is_ascii_digit (str_of_nat n) = true /\
  dec_value (str_of_nat n) = n.
Proof.
  unfold str_of_nat; destruct (digits_rev_ok (S n) n) as [H1 [H2 H3]]; [lia|].
  split; [intros E; apply H1; rewrite <- (rev_involutive (digits_rev _ _)), E; reflexivity|].
  split; [rewrite forallb_forall in *; intros x Hx; apply H2, in_rev, Hx | exact H3].
Qed.

(** The uuid cell is empty for an empty group; otherwise, split on
    newline, it has one entry per response row of the group, in the
    group's order, each a string of decimal digits whose value is the
    row's index + 2 (its row number in the response sheet). *)
Theorem generate_uuid_from_df_rows (g : group) :
  (g = [] -> generate_uuid_from_df g = []) /\
  (g <> [] ->
   Forall (fun s => s <> [] /\ forallb is_ascii_digit s = true)
          (split_nl (generate_uuid_from_df g)) /\
   map dec_value (split_nl (generate_uuid_from_df g)) = map (fun p => fst p + 2) g).
Proof.
  split; [intros ->; reflexivity|]; intros Hg.
  assert (Hs : split_nl (generate_uuid_from_df g) = map (fun p => str_of_nat (fst p + 2)) g).
  { destruct g as [|p g']; [congruence|].
    unfold generate_uuid_from_df; apply split_join_nl; [discriminate|].
    apply Forall_forall; intros x Hx; apply in_map_iff in Hx as [q [<- _]].
    destruct (str_of_nat_ok (fst q + 2)) as [_ [Hdig _]].
    intros Hin; rewrite forallb_forall in Hdig; specialize (Hdig nl Hin); discriminate. }
  rewrite Hs; split.
  - apply Forall_forall; intros x Hx; apply in_map_iff in Hx as [q [<- _]].
    destruct (str_of_nat_ok (fst q + 2)) as [H1 [H2 _]]; tauto.
  - rewrite map_map; apply map_ext; intros q; apply str_of_nat_ok.
Qed.

Lemma generate_uuid_from_df_rows_witness :
  [(0, [] : record); (11, [])] <> [] /\
  map dec_value (split_nl (generate_uuid_from_df [(0, [] : record); (11, [])])) = [2; 13].
Proof.
  assert (H : [(0, [] : record); (11, [])] <> []) by discriminate.
  split; [exact H | apply (generate_uuid_from_df_rows [(0, [] : record); (11, [])]), H].
Defined.

(** ** [merge_into_admin_sheet]: missing key columns *)

(** With a non-empty response frame, a missing [동] or [호수] column
    makes [_create_key] raise [KeyError] (the response frame is keyed
    first, [동] before [호수]) before any gateway call.  In particular an
    admin sheet without records (a DataFrame without columns) makes the
    merge raise [KeyError('동')]. *)
Theorem merge_into_admin_sheet_key_errors (gw : gateway) (R A : frame) (t : list call)
  (HR : frame_empty R = false) :
  (~ In col_dong (cols R) -> merge_into_admin_sheet gw R A t = (Err (KeyError col_dong), t)) /\
  (In col_dong (cols R) -> ~ In col_hosu (cols R) ->
     merge_into_admin_sheet gw R A t = (Err (KeyError col_hosu), t)) /\
  (In col_dong (cols R) -> In col_hosu (cols R) -> ~ In col_dong (cols A) ->
     merge_into_admin_sheet gw R A t = (Err (KeyError col_dong), t)) /\
  (In col_dong (cols R) -> In col_hosu (cols R) -> In col_dong (cols A) -> ~ In col_hosu (cols A) ->
     merge_into_admin_sheet gw R A t = (Err (KeyError col_hosu), t)).
Proof.
  unfold merge_into_admin_sheet, merge_frames, create_key; rewrite HR.
  split; [|split; [|split]]; intros;
    repeat match goal with
    | H : In ?c ?l |- _ => apply mem_In in H; rewrite H; clear H
    | H : ~ In ?c ?l |- _ => apply mem_notIn in H; rewrite H; clear H
    end; reflexivity.
Qed.

Lemma merge_into_admin_sheet_key_errors_witness :
  frame_empty sample_response = false /\
  merge_into_admin_sheet (sample_gateway 0) sample_response (mkFrame [] []) [] =
  (Err (KeyError col_dong), []).
Proof.
  assert (H : frame_empty sample_response = false) by reflexivity.
  split; [exact H|].
  apply (merge_into_admin_sheet_key_errors (sample_gateway 0) sample_response (mkFrame [] []) [] H);
    [ apply mem_In; reflexivity | apply mem_In; reflexivity | intros [] ].
Defined.

(** ** [_update_admin_sheet]: the one write *)





(** ** The range of the write *)

(** The end column [chr(ord('A') + n - 1)] is an upper-case letter
    exactly when the sheet has 1 to 26 columns: with 27 or more columns
    the range names a column past [Z] ([\[] for 27), with none it names
    [@]. *)
Theorem update_range_end_col (h n m : nat) :
  ((65 <= end_col (update_range h n m) <= 90)%N <-> 1 <= n <= 26) /\
  (26 < n -> (90 < end_col (update_range h n m))%N).
Proof. cbn [update_range end_col]; split; [split; intros; lia | intros; lia]. Qed.

(** ** The merge touches only its target columns *)

Lemma merge_row_other mapping rf admin_cols r c :
  c <> col_uuid -> c <> col_rep_name -> ~ In c (map snd mapping) ->
  lookup (merge_row mapping rf admin_cols r) c = lookup r c.
Proof.
  intros H1 H2 H3; rewrite merge_row_updates.
  destruct (group_of rf (lookup r col_KEY)) as [|p ps]; [reflexivity|].
  apply lookup_apply_all_other; intros H.
  apply row_updates_cols in H as [H|[H|[H _]]]; [exact (H1 H) | exact (H2 H) | exact (H3 H)].
Qed.

(** Whatever the mapping, an admin column other than [uuid],
    [대표자 이름], [KEY] and the mapping's target columns keeps, in every
    row written back, the value of the input row. *)
Theorem merge_frames_other_columns (mapping : list (pystr * pystr)) (R A A1 : frame)
  (H : merge_frames mapping R A = Ok A1) :
  Forall2 (fun out inp => forall c, c <> col_uuid -> c <> col_rep_name -> c <> col_KEY ->
                                    ~ In c (map snd mapping) -> lookup out c = lookup inp c)
          (rows (update_df A1)) (rows A).
Proof.
  destruct (merge_frames_rows mapping R A A1 H) as [rf [af [_ [_ [_ ->]]]]].
  apply Forall2_map_self; intros r _ c H1 H2 H3 H4.
  rewrite lookup_rec_drop_other, merge_row_other, lookup_rec_assign_other by assumption.
  reflexivity.
Qed.

Lemma merge_frames_other_columns_witness :
  merge_frames column_mappings sample_response sample_admin = Ok sample_merged /\
  Forall2 (fun out inp => lookup out (u "비고") = lookup inp (u "비고"))
          (rows (update_df sample_merged)) (rows sample_admin).
Proof.
  split; [exact sample_merge_ok|].
  eapply Forall2_impl; [|exact (merge_frames_other_columns column_mappings sample_response
                                   sample_admin sample_merged sample_merge_ok)].
  intros out inp Hc; apply Hc; (apply streqb_false; reflexivity) || (apply mem_notIn; reflexivity).
Defined.

(** ** The written frame is aligned with its columns *)

Lemma map_fst_rec_set r c v : map fst (rec_set r c v) = map fst r.
Proof.
  induction r as [|[k w] r IH]; simpl; [reflexivity|].
  destruct (streqb k c); simpl; rewrite IH; reflexivity.
Qed.

Lemma map_fst_apply_all U r : map fst (apply_all U r) = map fst r.
Proof.
  revert r; induction U as [|x U IH]; intros r; [reflexivity|].
  simpl; rewrite IH; apply map_fst_rec_set.
Qed.

Lemma map_fst_merge_row mapping rf admin_cols r :
  map fst (merge_row mapping rf admin_cols r) = map fst r.
Proof.
  rewrite merge_row_updates; destruct (group_of rf (lookup r col_KEY)); [reflexivity|].
  apply map_fst_apply_all.
Qed.

Lemma map_fst_rec_drop r k :
  map fst (rec_drop r k) = filter (fun c => negb (streqb c k)) (map fst r).
Proof.
  induction r as [|[c v] r IH]; simpl; [reflexivity|].
  destruct (streqb c k); simpl; rewrite IH; reflexivity.
Qed.

Lemma has_key_mem r c : has_key r c = mem c (map fst r).
Proof.
  induction r as [|[k v] r IH]; simpl; [reflexivity|].
  unfold has_key, mem in *; simpl; rewrite IH.
  f_equal; unfold streqb.
  destruct (list_eq_dec N.eq_dec k c), (list_eq_dec N.eq_dec c k); congruence.
Qed.

Lemma filter_app_KEY (l : list pystr) :
  filter (fun c => negb (streqb c col_KEY)) (l ++ [col_KEY]) =
  filter (fun c => negb (streqb c col_KEY)) l.
Proof. rewrite filter_app; cbn [filter]; rewrite streqb_refl, app_nil_r; reflexivity. Qed.

(** If every admin row carries exactly the admin columns, the frame
    handed to the sheet writer has the admin columns in their order
    without [KEY], and every written row carries exactly those columns,
    in that order. *)
Theorem merge_frames_aligned (mapping : list (pystr * pystr)) (R A A1 : frame)
  (Hwf : frame_wf A) (H : merge_frames mapping R A = Ok A1) :
  cols (update_df A1) = filter (fun c => negb (streqb c col_KEY)) (cols A) /\
  frame_wf (update_df A1).
Proof.
  destruct (merge_frames_rows mapping R A A1 H) as [rf [af [_ [HA [Hcols Hrows]]]]].
  destruct (create_key_ok _ _ HA) as [_ [_ [Hcaf _]]].
  assert (Hc : cols (update_df A1) = filter (fun c => negb (streqb c col_KEY)) (cols A)).
  { rewrite Hcols, Hcaf; destruct (mem col_KEY (cols A)); [reflexivity | apply filter_app_KEY]. }
  assert (Hw : frame_wf (update_df A1)).
  { unfold frame_wf; rewrite Hrows, Hc, Forall_map.
    unfold frame_wf in Hwf; eapply Forall_impl; [|exact Hwf]; intros r Hr.
    rewrite map_fst_rec_drop, map_fst_merge_row, <- Hr.
    unfold rec_assign; rewrite has_key_mem.
    destruct (mem col_KEY (map fst r)); [rewrite map_fst_rec_set; reflexivity|].
    rewrite map_app; apply filter_app_KEY. }
  split; [exact Hc | exact Hw].
Qed.

Lemma merge_frames_aligned_witness :
  frame_wf sample_admin /\
  merge_frames column_mappings sample_response sample_admin = Ok sample_merged /\
  frame_wf (update_df sample_merged).
Proof.
  split; [exact sample_admin_wf|]; split; [exact sample_merge_ok|].
  apply (merge_frames_aligned column_mappings sample_response sample_admin sample_merged
           sample_admin_wf sample_merge_ok).
Defined.

(** ** [get_worksheet_by_id_with_retry] *)

Lemma retry_loop_found (gw : gateway) (sid retries delay fuel a k : nat) (t : list call) :
  a <= k < a + fuel -> gw_get_by_id gw k = Found ->
  (forall j, a <= j < k -> gw_get_by_id gw j <> Found) ->
  retry_loop gw sid retries delay a fuel t =
  (Ok tt, t ++ flat_map (attempt_trace gw sid retries delay) (seq a (k - a))
            ++ [CGetWorksheetById sid k]).
Proof.
  revert a t; induction fuel as [|f IH]; intros a t Hk Hf Hb; [lia|].
  cbn [retry_loop]; unfold bind, emit, ret.
  destruct (Nat.eq_dec a k) as [<-|Hne].
  - rewrite Hf, Nat.sub_diag; reflexivity.
  - assert (Ha : gw_get_by_id gw a <> Found) by (apply Hb; lia).
    replace (k - a) with (S (k - S a)) by lia; cbn [seq flat_map].
    unfold attempt_trace at 1.
    destruct (gw_get_by_id gw a) eqn:Eg; [congruence| |].
    + rewrite IH by (lia || exact Hf || (intros j Hj; apply Hb; lia)).
      rewrite <- !app_assoc; reflexivity.
    + destruct (Nat.ltb a (retries - 1)); unfold bind, emit, ret;
        rewrite IH by (lia || exact Hf || (intros j Hj; apply Hb; lia));
        rewrite <- !app_assoc; reflexivity.
Qed.

Lemma retry_loop_exhausted (gw : gateway) (sid retries delay fuel a : nat) (t : list call) :
  (forall j, a <= j < a + fuel -> gw_get_by_id gw j <> Found) ->
  retry_loop gw sid retries delay a fuel t =
  (Err (RuntimeError not_found_msg), t ++ flat_map (attempt_trace gw sid retries delay) (seq a fuel)).
Proof.
  revert a t; induction fuel as [|f IH]; intros a t Hb.
  - simpl; rewrite app_nil_r; reflexivity.
  - cbn [retry_loop seq flat_map]; unfold bind, emit, ret.
    assert (Ha : gw_get_by_id gw a <> Found) by (apply Hb; lia).
    unfold attempt_trace at 1.
    destruct (gw_get_by_id gw a) eqn:Eg; [congruence| |].
    + rewrite IH by (intros j Hj; apply Hb; lia); rewrite <- !app_assoc; reflexivity.
    + destruct (Nat.ltb a (retries - 1)); unfold bind, emit, ret;
        rewrite IH by (intros j Hj; apply Hb; lia); rewrite <- !app_assoc; reflexivity.
Qed.

(** When attempt [k] is the first one whose lookup returns the sheet,
    the helper returns it right there: it has looked up attempts
    [0..k], slept once after each earlier attempt that raised and never
    after one that returned nothing. *)
Theorem get_worksheet_by_id_with_retry_first_found (gw : gateway) (sid retries delay k : nat)
  (t : list call) (Hk : k < retries) (Hf : gw_get_by_id gw k = Found)
  (Hb : forall j, j < k -> gw_get_by_id gw j <> Found) :
  get_worksheet_by_id_with_retry gw sid retries delay t =
  (Ok tt, t ++ flat_map (attempt_trace gw sid retries delay) (seq 0 k) ++ [CGetWorksheetById sid k]).
Proof.
  unfold get_worksheet_by_id_with_retry.
  rewrite (retry_loop_found gw sid retries delay retries 0 k t), Nat.sub_0_r;
    [reflexivity | lia | exact Hf | intros j Hj; apply Hb; lia].
Qed.

Lemma get_worksheet_by_id_with_retry_first_found_witness :
  get_worksheet_by_id_with_retry (sample_gateway 3) 7 5 1 [] =
  (Ok tt, [CGetWorksheetById 7 0; CGetWorksheetById 7 1; CGetWorksheetById 7 2; CSleep 1;
           CGetWorksheetById 7 3]).
Proof.
  rewrite (get_worksheet_by_id_with_retry_first_found (sample_gateway 3) 7 5 1 3 []);
    [reflexivity | lia | reflexivity |].
  intros j Hj; do 3 (destruct j as [|j]; [simpl; discriminate|]); lia.
Defined.

(** When no attempt returns the sheet, the helper raises its
    [RuntimeError] after looking up every attempt [0..retries-1] (none
    at all for [retries = 0]), sleeping after each attempt that raised
    except the last one: its last call is the last lookup. *)
Theorem get_worksheet_by_id_with_retry_exhausted (gw : gateway) (sid retries delay : nat)
  (t : list call) (Hb : forall j, j < retries -> gw_get_by_id gw j <> Found) :
  get_worksheet_by_id_with_retry gw sid retries delay t =
  (Err (RuntimeError not_found_msg), t ++ flat_map (attempt_trace gw sid retries delay) (seq 0 retries)) /\
  (0 < retries ->
   last (flat_map (attempt_trace gw sid retries delay) (seq 0 retries)) CGetAllValues =
   CGetWorksheetById sid (retries - 1)).
Proof.
  split.
  - apply retry_loop_exhausted; intros j Hj; apply Hb; lia.
  - intros Hr; destruct retries as [|r]; [lia|].
    rewrite seq_S, flat_map_app; cbn [flat_map]; rewrite app_nil_r.
    unfold attempt_trace at 2; simpl (S r - 1); rewrite Nat.sub_0_r, Nat.ltb_irrefl.
    simpl (0 + r); destruct (gw_get_by_id gw r); apply last_last.
Qed.

Lemma get_worksheet_by_id_with_retry_exhausted_witness :
  get_worksheet_by_id_with_retry (sample_gateway 5) 7 3 1 [] =
  (Err (RuntimeError not_found_msg),
   [CGetWorksheetById 7 0; CGetWorksheetById 7 1; CGetWorksheetById 7 2]).
Proof.
  assert (H : forall j, j < 3 -> gw_get_by_id (sample_gateway 5) j <> Found)
    by (intros j Hj; do 3 (destruct j as [|j]; [simpl; discriminate|]); lia).
  rewrite (proj1 (get_worksheet_by_id_with_retry_exhausted (sample_gateway 5) 7 3 1 [] H)).
  reflexivity.
Defined.

(** ** [process_sheets]: the backup comes before the write *)

Lemma retry_loop_appends (gw : gateway) (sid retries delay fuel a : nat) :
  exists res tr,
    (forall t, retry_loop gw sid retries delay a fuel t = (res, t ++ tr)) /\
    (forall c, In c tr -> is_update_call c = false) /\
    (res = Ok tt -> exists k, a <= k < a + fuel /\ gw_get_by_id gw k = Found).
Proof.
  revert a; induction fuel as [|f IH]; intros a.
  - exists (Err (RuntimeError not_found_msg)), []; split; [intros t; rewrite app_nil_r; reflexivity|].
    split; [intros c [] | discriminate].
  - destruct (IH (S a)) as [res [tr [E [W F]]]].
    destruct (gw_get_by_id gw a) eqn:Eg.
    + exists (Ok tt), [CGetWorksheetById sid a]; split; [|split].
      * intros t; cbn [retry_loop]; unfold bind, emit, ret; rewrite Eg; reflexivity.
      * intros c [<-|[]]; reflexivity.
      * intros _; exists a; split; [lia | exact Eg].
    + exists res, (CGetWorksheetById sid a :: tr); split; [|split].
      * intros t; cbn [retry_loop]; unfold bind, emit; rewrite Eg, E, <- app_assoc; reflexivity.
      * intros c [<-|Hc]; [reflexivity | auto].
      * intros Hr; destruct (F Hr) as [k [Hk Hf]]; exists k; split; [lia | exact Hf].
    + set (s := if Nat.ltb a (retries - 1) then [CSleep delay] else []).
      exists res, (CGetWorksheetById sid a :: s ++ tr); split; [|split].
      * intros t; cbn [retry_loop]; unfold bind, emit, ret; rewrite Eg.
        subst s; destruct (Nat.ltb a (retries - 1)); rewrite E, <- !app_assoc; reflexivity.
      * intros c [<-|Hc]; [reflexivity|]; apply in_app_or in Hc as [Hc|Hc]; [|auto].
        subst s; destruct (Nat.ltb a (retries - 1)); [destruct Hc as [<-|[]]; reflexivity | destruct Hc].
      * intros Hr; destruct (F Hr) as [k [Hk Hf]]; exists k; split; [lia | exact Hf].
Qed.

Lemma merge_into_admin_sheet_appends (gw : gateway) (R A : frame) :
  exists res tr, forall t, merge_into_admin_sheet gw R A t = (res, t ++ tr).
Proof.
  unfold merge_into_admin_sheet.
  destruct (frame_empty R); [exists (Ok tt), []; intros t; rewrite app_nil_r; reflexivity|].
  destruct (merge_frames column_mappings R A) as [af|e];
    [|exists (Err e), []; intros t; rewrite app_nil_r; reflexivity].
  unfold update_admin_sheet.
  destruct (update_values (update_df af)) as [|v vs];
    [exists (Ok tt), []; intros t; rewrite app_nil_r; reflexivity|].
  exists (if gw_update_ok gw then Ok tt else Err (GatewayError (u "update"))),
         [CGetAllValues; CUpdate (update_range (find_header_row (gw_all_values gw))
                                    (List.length (cols (update_df af))) (List.length (v :: vs))) (v :: vs)].
  intros t; unfold bind, emit, ret, raise; rewrite <- app_assoc.
  destruct (gw_update_ok gw); reflexivity.
Qed.

Ltac no_update_in H :=
  simpl in H; repeat (destruct H as [H|H]; [discriminate|]); destruct H.

(** Whenever [process_sheets] writes to the admin sheet, the backup was
    made first: the copy was requested, one of the 5 lookups of the copy
    returned it, and the copy was renamed [Admin_Backup_<timestamp>]
    successfully, all before the write. *)
Theorem process_sheets_backup_before_write (gw : gateway) (c : call)
  (Hc : In c (snd (process_sheets gw []))) (Hu : is_update_call c = true) :
  gw_update_title_ok gw = true /\
  (exists k, k < 5 /\ gw_get_by_id gw k = Found) /\
  exists pre post,
    snd (process_sheets gw []) = pre ++ CUpdateTitle (u "Admin_Backup_" ++ gw_timestamp gw) :: post /\
    In (CCopyTo admin_sheet_id) pre /\ In c post.
Proof.
  destruct c; try discriminate; clear Hu.
  revert Hc.
  unfold process_sheets, read_sheets, backup_admin_sheet, open_by_key, read_records,
    get_worksheet_by_id_with_retry, bind, emit, ret, raise.
  destruct (gw_open gw response_sheet_id); [|intros H; no_update_in H].
  destruct (gw_records gw response_sheet_name) as [f1|]; [|intros H; no_update_in H].
  destruct (gw_open gw admin_sheet_id); [|intros H; no_update_in H].
  destruct (gw_records gw admin_sheet_name) as [f2|]; [|intros H; no_update_in H].
  destruct (gw_copy_to gw) as [sid|]; [|intros H; no_update_in H].
  destruct (retry_loop_appends gw sid 5 1 5 0) as [res [tr [E [W F]]]].
  rewrite E; destruct res as [[]|e].
  2:{ intros H; cbn [snd] in H; apply in_app_or in H as [H|H]; [no_update_in H|].
      apply W in H; discriminate. }
  destruct (F eq_refl) as [k [Hk Hf]].
  destruct (gw_update_title_ok gw).
  2:{ intros H; cbn [snd] in H; apply in_app_or in H as [H|H];
      [apply in_app_or in H as [H|H]; [no_update_in H | apply W in H; discriminate]|no_update_in H]. }
  destruct (merge_into_admin_sheet_appends gw f1 f2) as [res2 [tr2 E2]].
  cbn [fst snd]; rewrite E2; cbn [snd]; intros H.
  split; [reflexivity|]; split; [exists k; split; [lia | exact Hf]|].
  match type of H with In _ ((?P ++ [?ttl]) ++ ?post) =>
    exists P, post; split; [rewrite <- app_assoc; reflexivity|]; split end.
  - apply in_or_app; left; apply in_or_app; left; apply in_or_app; right; left; reflexivity.
  - apply in_app_or in H as [H|H]; [|exact H]; exfalso.
    apply in_app_or in H as [H|[H|[]]]; [|discriminate].
    apply in_app_or in H as [H|H]; [no_update_in H | apply W in H; discriminate].
Qed.

Lemma process_sheets_backup_before_write_witness :
  gw_update_title_ok (sample_gateway 0) = true.
Proof.
  refine (proj1 (process_sheets_backup_before_write (sample_gateway 0)
            (last (snd (process_sheets (sample_gateway 0) [])) CGetAllValues) _ _));
    [| vm_compute; reflexivity].
  apply in_rev; vm_compute; left; reflexivity.
Defined.

(** ** [_apply_one_time_formatting] *)

Definition fmt_call_ok (lo hi : nat) (ec : N) (c : fmt_call) : Prop :=
  match c with
  | FFormat r e => Nat.odd r = true /\ lo <= r < hi /\ e = ec
  | FSleepMs _ => True
  end.

Lemma format_loop_calls fmt sr nc idxs n f tr lo hi :
  (forall c, In c tr -> fmt_call_ok lo hi (65 + N.of_nat nc - 1)%N c) ->
  (forall i, In i idxs -> lo <= sr + i < hi) ->
  forall c, In c (snd (format_loop fmt sr nc idxs n f tr)) -> fmt_call_ok lo hi (65 + N.of_nat nc - 1)%N c.
Proof.
  revert n f tr; induction idxs as [|i idxs IH]; intros n f tr Htr Hi; cbn [format_loop]; [exact Htr|].
  assert (Hb := Hi i (or_introl eq_refl)).
  assert (Hrest : forall j, In j idxs -> lo <= sr + j < hi) by (intros j Hj; apply Hi; right; exact Hj).
  destruct (Nat.odd (sr + i)) eqn:Eo; [|apply IH; assumption].
  assert (Hadd : forall l, (forall c, In c l -> c = FFormat (sr + i) (65 + N.of_nat nc - 1)%N \/
                                                 exists ms, c = FSleepMs ms) ->
                 forall c, In c (tr ++ l) -> fmt_call_ok lo hi (65 + N.of_nat nc - 1)%N c).
  { intros l Hl c Hc; apply in_app_or in Hc as [Hc|Hc]; [auto|].
    destruct (Hl c Hc) as [->|[ms ->]]; [simpl; tauto | exact I]. }
  destruct (fmt n) as [|msg].
  - apply IH; [|exact Hrest]; apply Hadd; intros c [<-|[<-|[]]]; [left | right; eexists]; reflexivity.
  - destruct (quota_error msg).
    + destruct (fmt (S n)).
      * apply IH; [|exact Hrest]; apply Hadd;
          intros c [<-|[<-|[<-|[]]]]; [left | right; eexists | left]; reflexivity.
      * apply Hadd; intros c [<-|[<-|[<-|[]]]]; [left | right; eexists | left]; reflexivity.
    + apply IH; [|exact Hrest]; apply Hadd; intros c [<-|[]]; left; reflexivity.
Qed.

(** Whatever the [format] calls do, every range it formats is one odd
    row [r] with [max(330, start_row) <= r < start_row + num_rows],
    spanning columns [A] to [chr(ord('A') + num_cols - 1)]: rows before
    330 are never formatted. *)
Theorem apply_one_time_formatting_rows (fmt : nat -> fmt_result) (start_row num_rows num_cols : nat) :
  forall r e, In (FFormat r e) (snd (apply_one_time_formatting fmt start_row num_rows num_cols)) ->
  Nat.odd r = true /\ Nat.max 330 start_row <= r < start_row + num_rows /\
  e = (65 + N.of_nat num_cols - 1)%N.
Proof.
  intros r e H.
  apply (format_loop_calls fmt start_row num_cols _ 0 0 []
           (Nat.max 330 start_row) (start_row + num_rows)) in H; [exact H | intros c [] |].
  intros i Hi; apply in_seq in Hi; lia.
Qed.

Lemma apply_one_time_formatting_rows_witness :
  In (FFormat 331 67%N) (snd (apply_one_time_formatting (fun _ => FmtOk) 328 6 3)) /\
  Nat.odd 331 = true /\ Nat.max 330 328 <= 331 < 328 + 6 /\ 67%N = (65 + N.of_nat 3 - 1)%N.
Proof.
  assert (H : In (FFormat 331 67%N) (snd (apply_one_time_formatting (fun _ => FmtOk) 328 6 3)))
    by (vm_compute; left; reflexivity).
  split; [exact H | exact (apply_one_time_formatting_rows (fun _ => FmtOk) 328 6 3 331 67%N H)].
Defined.

Lemma map_add_seq (k a n : nat) : map (Nat.add k) (seq a n) = seq (k + a) n.
Proof.
  revert a; induction n as [|n IH]; intros a; [reflexivity|].
  simpl; rewrite IH; f_equal; f_equal; lia.
Qed.

Lemma format_loop_all_ok fmt sr nc idxs n f tr :
  (forall k, fmt k = FmtOk) ->
  format_loop fmt sr nc idxs n f tr =
  (f + List.length (filter Nat.odd (map (Nat.add sr) idxs)),
   tr ++ flat_map (fun r => [FFormat r (65 + N.of_nat nc - 1)%N; FSleepMs 100])
                  (filter Nat.odd (map (Nat.add sr) idxs))).
Proof.
  intros Hok; revert n f tr; induction idxs as [|i idxs IH]; intros n f tr; cbn [format_loop].
  - simpl; rewrite Nat.add_0_r, app_nil_r; reflexivity.
  - cbn [map filter]; destruct (Nat.odd (sr + i)); [|apply IH].
    rewrite Hok, IH; cbn [List.length flat_map]; rewrite <- app_assoc; f_equal; lia.
Qed.

(** When every [format] call succeeds, the function formats exactly the
    odd rows of [max(330, start_row) .. start_row + num_rows - 1], in
    increasing order, each once and followed by a 100 ms sleep, and
    counts each of them in [formatted_rows]. *)
Theorem apply_one_time_formatting_all_ok (fmt : nat -> fmt_result)
  (start_row num_rows num_cols : nat) (Hok : forall k, fmt k = FmtOk) :
  let odd_rows := filter Nat.odd (seq (Nat.max 330 start_row)
                                      (start_row + num_rows - Nat.max 330 start_row)) in
  apply_one_time_formatting fmt start_row num_rows num_cols =
  (List.length odd_rows,
   flat_map (fun r => [FFormat r (65 + N.of_nat num_cols - 1)%N; FSleepMs 100]) odd_rows).
Proof.
  intros odd_rows; unfold apply_one_time_formatting.
  rewrite format_loop_all_ok by exact Hok; rewrite map_add_seq.
  replace (start_row + (330 - start_row)) with (Nat.max 330 start_row) by lia.
  replace (num_rows - (330 - start_row)) with (start_row + num_rows - Nat.max 330 start_row) by lia.
  reflexivity.
Qed.

Lemma apply_one_time_formatting_all_ok_witness :
  apply_one_time_formatting (fun _ => FmtOk) 328 6 3 =
  (2, [FFormat 331 67%N; FSleepMs 100; FFormat 333 67%N; FSleepMs 100]).
Proof. apply (apply_one_time_formatting_all_ok (fun _ => FmtOk) 328 6 3); reflexivity. Defined.

Definition is_format_call (c : fmt_call) : bool :=
  match c with FFormat _ _ => true | FSleepMs _ => false end.

Lemma format_loop_bounds fmt sr nc idxs n f tr :
  let k := List.length (filter Nat.odd (map (Nat.add sr) idxs)) in
  fst (format_loop fmt sr nc idxs n f tr) <= f + k /\
  List.length (filter is_format_call (snd (format_loop fmt sr nc idxs n f tr)))
    <= List.length (filter is_format_call tr) + 2 * k.
Proof.
  revert n f tr; induction idxs as [|i idxs IH]; intros n f tr; cbv zeta; cbn [format_loop map filter].
  - cbn [fst snd filter List.length]; lia.
  - destruct (Nat.odd (sr + i)); cbn [List.length];
      [|apply IH].
    destruct (fmt n) as [|msg].
    + destruct (IH (S n) (S f) (tr ++ [FFormat (sr + i) (65 + N.of_nat nc - 1)%N; FSleepMs 100])) as [H1 H2].
      rewrite filter_app, length_app in H2; cbn [filter is_format_call List.length] in H2; cbv zeta in H1, H2; lia.
    + destruct (quota_error msg); [destruct (fmt (S n))|].
      * destruct (IH (S (S n)) (S f) (tr ++ [FFormat (sr + i) (65 + N.of_nat nc - 1)%N; FSleepMs 2000;
                                              FFormat (sr + i) (65 + N.of_nat nc - 1)%N])) as [H1 H2].
        rewrite filter_app, length_app in H2; cbn [filter is_format_call List.length] in H2; cbv zeta in H1, H2; lia.
      * cbn [fst snd]; rewrite filter_app, length_app; cbn [filter is_format_call List.length]; lia.
      * destruct (IH (S n) f (tr ++ [FFormat (sr + i) (65 + N.of_nat nc - 1)%N])) as [H1 H2].
        rewrite filter_app, length_app in H2; cbn [filter is_format_call List.length] in H2; cbv zeta in H1, H2; lia.
Qed.

(** Whatever the [format] calls do, the function calls [format] at most
    twice per odd row of its range (one retry after a quota error, none
    after another error), and [formatted_rows] never exceeds the number
    of those rows. *)
Theorem apply_one_time_formatting_call_bound (fmt : nat -> fmt_result)
  (start_row num_rows num_cols : nat) :
  let odd_rows := filter Nat.odd (seq (Nat.max 330 start_row)
                                      (start_row + num_rows - Nat.max 330 start_row)) in
  fst (apply_one_time_formatting fmt start_row num_rows num_cols) <= List.length odd_rows /\
  List.length (filter is_format_call (snd (apply_one_time_formatting fmt start_row num_rows num_cols)))
    <= 2 * List.length odd_rows.
Proof.
  intros odd_rows; unfold apply_one_time_formatting.
  destruct (format_loop_bounds fmt start_row num_cols (seq (330 - start_row) (num_rows - (330 - start_row))) 0 0 [])
    as [H1 H2].
  assert (Hodd : filter Nat.odd (map (Nat.add start_row)
                  (seq (330 - start_row) (num_rows - (330 - start_row)))) = odd_rows)
    by (rewrite map_add_seq; subst odd_rows; f_equal; f_equal; lia).
  rewrite Hodd in H1, H2; cbn [filter List.length] in H2; lia.
Qed.

(** ** The [uuid] cell after the merge *)

Lemma group_of_keys (R rf : frame) (k : pystr) :
  create_key R = Ok rf ->
  map fst (group_of rf k) =
  map fst (filter (fun p => streqb (unit_key (snd p)) k)
                  (combine (seq 0 (List.length (rows R))) (rows R))).
Proof.
  intros HR; destruct (create_key_ok _ _ HR) as [_ [_ [_ Hrows]]].
  unfold group_of; rewrite Hrows, length_map; clear Hrows HR.
  generalize 0; induction (rows R) as [|x l IH]; intros a; [reflexivity|].
  cbn [List.length seq combine map filter snd].
  rewrite lookup_rec_assign_same.
  destruct (streqb (unit_key x) k); cbn [map fst]; rewrite IH; reflexivity.
Qed.

(** In the written admin sheet, the [uuid] cell of an admin row lists,
    when split on newline, the decimal row numbers (index + 2) of exactly
    the responses whose key [strip(동)-strip(호수)] equals the row's key,
    in sheet order; an admin row without such a response keeps its
    [uuid] cell. *)
Theorem merge_uuid_cell (R A A1 : frame) (Hwf : frame_wf A)
  (H : merge_frames column_mappings R A = Ok A1)
  (i : nat) (r : record) (Hi : nth_error (rows A) i = Some r) (Hc : In col_uuid (cols A)) :
  let matches := map (fun p => fst p + 2)
                   (filter (fun p => streqb (unit_key (snd p)) (unit_key r))
                           (combine (seq 0 (List.length (rows R))) (rows R))) in
  exists out, nth_error (rows (update_df A1)) i = Some out /\
    (matches <> [] -> map dec_value (split_nl (lookup out col_uuid)) = matches) /\
    (matches = [] -> lookup out col_uuid = lookup r col_uuid).
Proof.
  intros matches.
  destruct (merge_frames_rows column_mappings R A A1 H) as [rf [af [HR [HA [_ Hrows]]]]].
  assert (Hm : matches = map (fun j => j + 2) (map fst (group_of rf (unit_key r))))
    by (rewrite (group_of_keys R rf _ HR), map_map; reflexivity).
  destruct (group_of rf (unit_key r)) as [|p ps] eqn:Eg.
  - rewrite Hrows, nth_error_map, Hi; eexists; split; [reflexivity|].
    split; [intros Hne; exfalso; apply Hne; exact Hm|intros _].
    rewrite lookup_rec_drop_other by exact uuid_ne_KEY.
    rewrite merge_row_updates, lookup_rec_assign_same, Eg.
    apply lookup_rec_assign_other, uuid_ne_KEY.
  - assert (Hg : group_of rf (unit_key r) <> []) by (rewrite Eg; discriminate).
    destruct (merged_row_overwrites R A A1 rf Hwf H HR i r Hi Hg) as [out [Ho [Hu _]]].
    exists out; split; [exact Ho|]; split; [intros _|intros E; rewrite Hm in E; discriminate].
    rewrite (Hu Hc), Hm, <- Eg, map_map.
    apply (generate_uuid_from_df_rows (group_of rf (unit_key r))), Hg.
Qed.

Lemma merge_uuid_cell_witness :
  frame_wf sample_admin /\
  merge_frames column_mappings sample_response sample_admin = Ok sample_merged /\
  nth_error (rows sample_admin) 0 = Some (nth 0 (rows sample_admin) []) /\
  In col_uuid (cols sample_admin) /\
  exists out, nth_error (rows (update_df sample_merged)) 0 = Some out /\
              map dec_value (split_nl (lookup out col_uuid)) = [2; 3].
Proof.
  assert (H1 : nth_error (rows sample_admin) 0 = Some (nth 0 (rows sample_admin) [])) by reflexivity.
  assert (H2 : In col_uuid (cols sample_admin)) by (apply mem_In; reflexivity).
  split; [exact sample_admin_wf|]; split; [exact sample_merge_ok|]; split; [exact H1|]; split; [exact H2|].
  destruct (merge_uuid_cell sample_response sample_admin sample_merged sample_admin_wf sample_merge_ok
              0 _ H1 H2) as [out [Ho [Hm _]]].
  exists out; split; [exact Ho|]; rewrite Hm; [vm_compute; reflexivity | vm_compute; discriminate].
Defined.

(** ** Admin lines are never lost *)

Lemma split_nl_app_nl (x y : pystr) : split_nl (x ++ nl :: y) = split_nl x ++ split_nl y.
Proof.
  induction x as [|c x IH]; [reflexivity|].
  cbn [app split_nl]; rewrite IH.
  destruct (c =? nl)%N; [reflexivity|].
  destruct (split_nl x) as [|q qs] eqn:E; [exfalso; exact (split_nl_not_nil x E)|reflexivity].
Qed.

Lemma existing_lines_join (l : list pystr) :
  existing_lines (join_nl l) = flat_map existing_lines l.
Proof.
  induction l as [|x l IH]; [reflexivity|].
  destruct l as [|y l].
  - simpl; rewrite app_nil_r; reflexivity.
  - change (join_nl (x :: y :: l)) with (x ++ nl :: join_nl (y :: l)).
    unfold existing_lines at 1; rewrite split_nl_app_nl, map_app, filter_app.
    fold (existing_lines x) (existing_lines (join_nl (y :: l))); rewrite IH; reflexivity.
Qed.

Lemma existing_lines_entry (x : pystr) : entry_ok x -> existing_lines x = [x].
Proof.
  intros [Hne [Hs Hnl]]; unfold existing_lines.
  pose proof (split_join_nl [x] ltac:(discriminate) (Forall_cons (P := fun y => ~ In nl y) x Hnl (Forall_nil _))) as E.
  cbn [join_nl] in E; rewrite E; cbn [map filter]; rewrite Hs.
  destruct x; [congruence | reflexivity].
Qed.

Lemma merge_multiline_data_keeps_lines (e : pystr) (nv : list pystr) :
  incl (existing_lines e) (existing_lines (merge_multiline_data e nv)).
Proof.
  intros a Ha; rewrite merge_multiline_data_eq, existing_lines_join.
  destruct (dedup_loop_spec [] (existing_lines e ++ filter nonempty (map strip nv))) as [_ Hin].
  apply in_flat_map; exists a; split.
  - apply Hin; split; [apply in_or_app; left; exact Ha | intros []].
  - rewrite existing_lines_entry; [left; reflexivity|].
    exact (proj1 (Forall_forall _ _) (existing_entries_ok e) a Ha).
Qed.

Lemma apply_all_keeps_lines (U : list col_upd) (r : record) (c : pystr) :
  (forall x, In x U -> fst x = c -> forall v, incl (existing_lines v) (existing_lines (snd x v))) ->
  incl (existing_lines (lookup r c)) (existing_lines (lookup (apply_all U r) c)).
Proof.
  revert r; induction U as [|x U IH]; intros r HU; [apply incl_refl|].
  rewrite apply_all_cons.
  eapply incl_tran; [|apply IH; intros y Hy; apply HU; right; exact Hy].
  unfold apply_upd.
  destruct (list_eq_dec N.eq_dec (fst x) c) as [E|E].
  - destruct (has_key r c) eqn:Hk.
    + rewrite E, lookup_rec_set_same by exact Hk; apply HU; [left; reflexivity | exact E].
    + rewrite lookup_nokey by exact Hk; intros a [].
  - rewrite lookup_rec_set_other by congruence; apply incl_refl.
Qed.

Lemma mapping_update_is_merge rf admin_cols g mapping x :
  In x (flat_map (mapping_update rf admin_cols g) mapping) ->
  exists nv, forall v, snd x v = merge_multiline_data v nv.
Proof.
  intros Hx; apply in_flat_map in Hx as [[rc ac] [_ Hx]]; unfold mapping_update in Hx.
  destruct (mem ac protected_columns); [destruct Hx|].
  destruct (mem rc (cols rf) && mem ac admin_cols); [|destruct Hx].
  destruct (new_values_for g rc) as [|v vs]; [destruct Hx|].
  destruct Hx as [<-|[]]; exists (v :: vs); reflexivity.
Qed.

(** Whatever the mapping, the merge never drops a line of an admin
    cell, except in [uuid] and [대표자 이름] (which it overwrites): every
    trimmed, non-blank line of an input cell is still a trimmed line of
    the cell written back. *)
Theorem merge_keeps_admin_lines (mapping : list (pystr * pystr)) (R A A1 : frame)
  (H : merge_frames mapping R A = Ok A1) :
  Forall2 (fun out inp => forall c, c <> col_uuid -> c <> col_rep_name -> c <> col_KEY ->
                                    incl (existing_lines (lookup inp c)) (existing_lines (lookup out c)))
          (rows (update_df A1)) (rows A).
Proof.
  destruct (merge_frames_rows mapping R A A1 H) as [rf [af [_ [_ [_ ->]]]]].
  apply Forall2_map_self; intros r _ c H1 H2 H3.
  rewrite lookup_rec_drop_other by exact H3.
  rewrite <- (lookup_rec_assign_other r c col_KEY (unit_key r) H3) at 1.
  rewrite merge_row_updates.
  destruct (group_of rf _) as [|p ps]; [apply incl_refl|].
  apply apply_all_keeps_lines; intros x Hx Hc v.
  unfold row_updates in Hx; apply in_app_or in Hx as [Hx|Hx].
  { destruct (mem col_uuid (cols af)); [destruct Hx as [<-|[]]; simpl in Hc; congruence | destruct Hx]. }
  apply in_app_or in Hx as [Hx|Hx].
  { destruct (mem col_rep_name (cols af)); [destruct Hx as [<-|[]]; simpl in Hc; congruence | destruct Hx]. }
  destruct (mapping_update_is_merge _ _ _ _ _ Hx) as [nv Hnv]; rewrite Hnv.
  apply merge_multiline_data_keeps_lines.
Qed.

Lemma merge_keeps_admin_lines_witness :
  merge_frames column_mappings sample_response sample_admin = Ok sample_merged /\
  Forall2 (fun out inp => incl (existing_lines (lookup inp col_name)) (existing_lines (lookup out col_name)))
          (rows (update_df sample_merged)) (rows sample_admin).
Proof.
  split; [exact sample_merge_ok|].
  eapply Forall2_impl; [|exact (merge_keeps_admin_lines column_mappings sample_response
                                   sample_admin sample_merged sample_merge_ok)].
  intros out inp Hc; apply Hc; apply streqb_false; reflexivity.
Defined.
